(** * SGStatic driver (src/main.cpp): shallow embedding and properties

    The driver of the PE analyser is modelled as a function from an
    environment ([World]: the command-line parser, the file system, the PE
    parser and the signature engine, all of them libraries outside
    main.cpp) and the raw arguments to an exit code and the ordered list
    of observable actions ([event]): the stream statements of main.cpp
    itself and the calls it makes on the PE model and on the signature
    engine (what these libraries write while they are called is part of
    the call, not an event of its own).

    The environment is read-only during a run: the file system answers
    are those of one fixed snapshot.  A run ends with the code main
    returns, or is terminated by the [boost::filesystem::filesystem_error]
    that the existence test of [parse_args] throws outside any [try]
    block. *)

From stdpp Require Import base strings gmap list.
From Stdlib Require Import ZArith Ascii.

Local Open Scope Z_scope.
Local Open Scope string_scope.
Local Open Scope list_scope.

(** ** Data *)

(** [std::endl] and the tabulation written in front of every match. *)
Definition endl : string := String "010"%char EmptyString.
Definition tab : string := String "009"%char EmptyString.

(** [po::variables_map] after [po::store]: one field per option declared
    in [parse_args].  An option without a value is a flag that is counted
    or not; an option with a value is absent ([None], [count] is 0) or
    carries its value. *)
Record variables_map := mk_vm {
  help : bool;
  pe : option (list string);
  recursive : bool;
  dump : option (list string);
  hashes : bool;
  extract : option string;
  peid : bool;
  clamav : bool
}.

Definition empty_vm : variables_map :=
  mk_vm false None false None false None false false.

(** [vm.count(key)] for a flag and for an option with a value. *)
Definition count_flag (b : bool) : nat := if b then 1%nat else 0%nat.
Definition count {A} (o : option A) : nat :=
  match o with Some _ => 1%nat | None => 0%nat end.
Definition nonzero (n : nat) : bool := negb (Nat.eqb n 0).

(** Modelled from the spec: yara_wrapper.h is not part of the sources.
    A match is a rule name and an unordered mapping from metadata keys to
    string values; [operator[]] reads one metadata field (the empty string
    for a key the rule does not define). *)
Record Match := mk_match {
  rule_name : string;
  metadata : gmap string string
}.

Definition matches := list Match.

Definition field (m : Match) (key : string) : string :=
  default EmptyString (metadata m !! key).

(** Modelled from the spec: the rule scanner (yara_wrapper.h) is not part
    of the sources.  An engine instance holds the rule file it has loaded,
    if any; [load] answers ok or fails, [scan_file] returns the list of all
    the matches. *)
Record Yara := mk_yara { loaded : option string }.

Definition new_yara : Yara := mk_yara None.

(** The queries of [sg::PE] that the driver calls on a parsed image. *)
Inductive accessor :=
| dump_dos_header
| dump_pe_header
| dump_image_optional_header
| dump_section_table
| dump_imports
| dump_exports
| dump_resources (compute_hashes : bool)
| dump_version_info
| dump_debug_info
| dump_relocations
| dump_tls
| dump_certificates
| dump_summary
| extract_resources (destination : string)
| dump_hashes.

(** Observable actions of a run, in program order.  [Cout] and [Cerr]
    are the stream statements of main.cpp. *)
Inductive event :=
| Cout (text : string)                       (* std::cout << ... *)
| Cerr (text : string)                       (* std::cerr << ... *)
| LoadRules (rule_file : string) (ok : bool) (* Yara::load_rules *)
| ScanFile (y : Yara) (target : string)      (* y.scan_file(target) *)
| PeOpen (path : string)                     (* sg::PE pe(path) *)
| PeCall (path : string) (a : accessor).     (* pe.<accessor>() *)

Global Instance Yara_eq_dec : EqDecision Yara.
Proof. solve_decision. Defined.

Global Instance accessor_eq_dec : EqDecision accessor.
Proof. solve_decision. Defined.

Global Instance event_eq_dec : EqDecision event.
Proof. solve_decision. Defined.

(** Everything main.cpp obtains from the libraries it links against. *)
Record World := mk_world {
  (* po::command_line_parser(argc, argv)...run() stored in a fresh map:
     the message of the po::error thrown, or the parsed options *)
  command_line_parser : list string -> string + variables_map;
  (* rendering of the options_description [desc] *)
  desc : string;
  (* boost::filesystem::exists answers true *)
  fs_exists : string -> bool;
  (* for a path that is not reported to exist: whether that is because
     its status cannot be determined (an error other than "not found",
     such as a name longer than the system allows), in which case
     boost::filesystem::exists throws filesystem_error; this concerns the
     paths named on the command line, the entries that a
     directory_iterator enumerates are taken to have a status *)
  fs_status_error : string -> bool;
  fs_is_directory : string -> bool;
  (* the entries a boost::filesystem::directory_iterator enumerates, as
     the strings of their paths *)
  directory_iterator : string -> list string;
  (* whether the parse done by the sg::PE constructor succeeds *)
  pe_parses : string -> bool;
  (* whether Yara::load_rules succeeds on a rule file *)
  rules_load : string -> bool;
  (* the matches of a loaded rule file on a target file *)
  rules_scan : string -> string -> matches
}.

(** ** Effects: a writer over the list of events *)

Record Run (A : Type) := mk_run { value : A; trace : list event }.
Arguments mk_run {A} & _ _.
Arguments value {A} _.
Arguments trace {A} _.

Global Instance run_ret : MRet Run := fun A a => mk_run a [].

(** Sequencing: the events of [m], then those of the continuation. *)
Definition run_bind {A B} (m : Run A) (k : A -> Run B) : Run B :=
  mk_run (value (k (value m))) (trace m ++ trace (k (value m))).

Declare Scope run_scope.
Delimit Scope run_scope with run.
Bind Scope run_scope with Run.
Notation "x ← y ; z" := (run_bind y (fun x : _ => z))
  (at level 20, y at level 100, z at level 200, only parsing) : run_scope.
Notation "' x ← y ; z" := (run_bind y (fun x : _ => z))
  (at level 20, x pattern, y at level 100, z at level 200, only parsing) : run_scope.
Notation "x ;; z" := (run_bind x (fun _ => z))
  (at level 100, z at level 200, only parsing, right associativity) : run_scope.
Local Open Scope run_scope.

Definition emit (e : event) : Run unit := mk_run tt [e].

(** A [for] loop over a vector whose body returns nothing. *)
Fixpoint for_each {A} (body : A -> Run unit) (l : list A) : Run unit :=
  match l with
  | [] => mret tt
  | x :: rest => body x;; for_each body rest
  end.

(** ** parse_args *)

(** What a call of [boost::filesystem::exists] does: it answers, or it
    throws [filesystem_error] when the status of the path cannot be
    determined. *)
Inductive answer :=
| Answer (b : bool)
| Throws.

Definition filesystem_exists (w : World) (p : string) : answer :=
  if fs_exists w p then Answer true
  else if fs_status_error w p then Throws
  else Answer false.

(** How [parse_args] ends: it returns whether the arguments are valid, or
    the exception of an existence test leaves it ([Uncaught]): the test
    is outside the [try] block, which only covers the parser. *)
Inductive verdict :=
| Verdict (valid : bool)
| Uncaught.

(** A boolean written where a verdict is expected is the value returned. *)
Coercion Verdict : bool >-> verdict.
Arguments pair {A B} & _ _.

(** The loop that verifies that all the input files exist; [false] is the
    early [return false] at the first file that is missing. *)
Fixpoint verify_input_files (w : World) (input_files : list string) : Run verdict :=
  match input_files with
  | [] => mret (Verdict true)
  | it :: rest =>
      match filesystem_exists w it with
      | Throws => mret Uncaught
      | Answer found_it =>
          if negb found_it
          then emit (Cerr ("[!] Error: " +:+ it +:+ " not found!" +:+ endl));;
               mret (Verdict false)
          else verify_input_files w rest
      end
  end.

(** Returns whether the arguments are valid, and the filled map. *)
Definition parse_args (w : World) (argv : list string)
    : Run (verdict * variables_map) :=
  match command_line_parser w argv with
  | inl what =>
      emit (Cerr ("[!] Error: Could not parse command line (" +:+ what +:+ ")."
                    +:+ endl +:+ endl));;
      mret (Verdict false, empty_vm)
  | inr vm =>
      if nonzero (count_flag (help vm)) || negb (nonzero (count (pe vm)))
      then emit (Cout (desc w +:+ endl));; mret (Verdict false, vm)
      else
        match pe vm with
        | Some input_files =>
            ok ← verify_input_files w input_files; mret (ok, vm)
        | None => mret (Verdict false, vm) (* excluded by the test above *)
        end
  end.

(** ** The PE model and the signature engine, as the driver uses them *)

(** Modelled from the spec: pe.h is not part of the sources.  A model is
    created from a file path; [is_valid] is false when the parse failed;
    [get_path] is the path it was created from. *)
Record PE := mk_pe { get_path : string; is_valid : bool }.

Definition PE_open (w : World) (path : string) : Run PE :=
  emit (PeOpen path);; mret (mk_pe path (pe_parses w path)).

Definition call (p : PE) (a : accessor) : Run unit :=
  emit (PeCall (get_path p) a).

Definition load_rules (w : World) (y : Yara) (rule_file : string) : Run (bool * Yara) :=
  let ok := rules_load w rule_file in
  emit (LoadRules rule_file ok);;
  mret (ok, if ok then mk_yara (Some rule_file) else y).

Definition scan_file (w : World) (y : Yara) (target : string) : Run matches :=
  emit (ScanFile y target);;
  mret (match loaded y with
        | Some rule_file => rules_scan w rule_file target
        | None => []
        end).

(** [if (c) { body }] without an else branch. *)
Definition when (c : bool) (body : Run unit) : Run unit :=
  if c then body else mret tt.

(** ** handle_dump_option *)

(** [std::find(l.begin(), l.end(), x)]: the distance from [begin] of the
    iterator returned, which is [end] when no element equals [x]. *)
Fixpoint find (l : list string) (x : string) : nat :=
  match l with
  | [] => 0%nat
  | y :: rest => if String.eqb y x then 0%nat else S (find rest x)
  end.

(** [std::find(...) != l.end()] *)
Definition found (l : list string) (x : string) : bool :=
  negb (Nat.eqb (find l x) (length l)).

Definition handle_dump_option (categories : list string) (compute_hashes : bool)
    (p : PE) : Run unit :=
  let dump_all := found categories "all" in
  when (dump_all || found categories "dos") (call p dump_dos_header);;
  when (dump_all || found categories "pe") (call p dump_pe_header);;
  when (dump_all || found categories "opt") (call p dump_image_optional_header);;
  when (dump_all || found categories "sections") (call p dump_section_table);;
  when (dump_all || found categories "imports") (call p dump_imports);;
  when (dump_all || found categories "exports") (call p dump_exports);;
  when (dump_all || found categories "resources") (call p (dump_resources compute_hashes));;
  when (dump_all || found categories "version") (call p dump_version_info);;
  when (dump_all || found categories "debug") (call p dump_debug_info);;
  when (dump_all || found categories "relocations") (call p dump_relocations);;
  when (dump_all || found categories "tls") (call p dump_tls);;
  when (dump_all || found categories "certificates") (call p dump_certificates).

(** ** get_input_files *)

Definition push_back {A} (v : list A) (x : A) : list A := v ++ [x].

(** [vm[key].as<std::vector<std::string> >()]; every use is guarded by a
    non-zero [count]. *)
Definition as_strings (o : option (list string)) : list string := default [] o.

(** The inner loop over the entries of one directory. *)
Fixpoint directory_loop (w : World) (entries : list string) (targets : list string)
    : list string :=
  match entries with
  | [] => targets
  | dit :: rest =>
      if negb (fs_is_directory w dit) (* Ignore subdirectories *)
      then directory_loop w rest (push_back targets dit)
      else directory_loop w rest targets
  end.

(** The outer loop over the inputs given. *)
Fixpoint input_loop (w : World) (input : list string) (targets : list string)
    : list string :=
  match input with
  | [] => targets
  | it :: rest =>
      if negb (fs_is_directory w it)
      then input_loop w rest (push_back targets it)
      else input_loop w rest (directory_loop w (directory_iterator w it) targets)
  end.

Definition get_input_files (w : World) (vm : variables_map) : list string :=
  if nonzero (count_flag (recursive vm))
  then input_loop w (as_strings (pe vm)) []
  else as_strings (pe vm).

(** ** main *)

(** [boost::tokenizer] over a [boost::char_separator<char>]: the separator
    characters are dropped, and so are the empty tokens (the default
    policy of char_separator). *)
Definition flush (cur : string) : list string :=
  match cur with EmptyString => [] | _ => [cur] end.

Fixpoint tokenizer_from (sep : ascii) (cur : string) (s : string) : list string :=
  match s with
  | EmptyString => flush cur
  | String c rest =>
      if Ascii.eqb c sep
      then flush cur ++ tokenizer_from sep EmptyString rest
      else tokenizer_from sep (cur +:+ String c EmptyString) rest
  end.

Definition tokenizer (s : string) (sep : ascii) : list string :=
  tokenizer_from sep EmptyString s.

(** Categories may be comma-separated: the two nested loops that fill
    [categories]. *)
Definition split_categories (dump_args : list string) : list string :=
  fold_left (fun categories it => fold_left push_back (tokenizer it ","%char) categories)
            dump_args [].

Definition magic_rules : string := "resources/magic.yara".
Definition peid_rules : string := "resources/peid.yara".
Definition clamav_rules : string := "resources/clamav.yara".

Definition separator : string :=
  "--------------------------------------------------------------------------------"
  +:+ endl +:+ endl.

(** The branch taken when the PE could not be parsed, up to its
    [continue].  Its existence test is made on a target: an input file,
    whose test answered true in [parse_args], or an entry of a directory,
    taken to have a status. *)
Definition report_unparseable (w : World) (it : string) (p : PE) : Run unit :=
  emit (Cerr ("[!] Error: Could not parse " +:+ it +:+ "!" +:+ endl));;
  (if fs_exists w it && negb (fs_is_directory w it)
   then
     '(ok, y) ← load_rules w new_yara magic_rules;
     if ok
     then
       m ← scan_file w y (get_path p);
       when (0 <? length m)%nat
         (emit (Cerr ("Detected file type(s):" +:+ endl));;
          for_each (fun x => emit (Cerr (tab +:+ field x "description" +:+ endl))) m)
     else mret tt
   else mret tt);;
  emit (Cerr endl).

(** The body of the loop of [main] for a PE that was parsed; [more] is
    [it != targets.end() - 1]. *)
Definition report_pe (w : World) (vm : variables_map) (y_peid y_clamav : Yara)
    (p : PE) (more : bool) : Run unit :=
  (match dump vm with
   | Some dump_args =>
       handle_dump_option (split_categories dump_args)
                          (nonzero (count_flag (hashes vm))) p
   | None => call p dump_summary
   end);;
  (match extract vm with
   | Some destination => call p (extract_resources destination)
   | None => mret tt
   end);;
  when (nonzero (count_flag (hashes vm))) (call p dump_hashes);;
  when (nonzero (count_flag (peid vm)))
    (m ← scan_file w y_peid (get_path p);
     when (0 <? length m)%nat
       (emit (Cout ("PEiD Signature:" +:+ endl));;
        for_each (fun x => emit (Cout (tab +:+ field x "packer_name" +:+ endl))) m;;
        emit (Cout endl)));;
  when (nonzero (count_flag (clamav vm)))
    (m ← scan_file w y_clamav (get_path p);
     when (0 <? length m)%nat
       (emit (Cout ("ClamAV Signature:" +:+ endl));;
        for_each (fun x => emit (Cout (tab +:+ field x "signature" +:+ endl))) m;;
        emit (Cout endl)));;
  when more (emit (Cout separator)).

(** One iteration of the loop over the targets. *)
Definition analyze (w : World) (vm : variables_map) (y_peid y_clamav : Yara)
    (it : string) (more : bool) : Run unit :=
  p ← PE_open w it;
  if negb (is_valid p)
  then report_unparseable w it p (* continue *)
  else report_pe w vm y_peid y_clamav p more.

Fixpoint analysis_loop (w : World) (vm : variables_map) (y_peid y_clamav : Yara)
    (targets : list string) : Run unit :=
  match targets with
  | [] => mret tt
  | it :: rest =>
      analyze w vm y_peid y_clamav it
              (match rest with [] => false | _ => true end);;
      analysis_loop w vm y_peid y_clamav rest
  end.

Definition banner : string := "* SGStatic 0.8 *" +:+ endl +:+ endl.

(** How the process ends: main returns a code, or the exception that
    left [parse_args] leaves main as well and the run is terminated
    without a code of its own. *)
Inductive exit :=
| Exit (code : Z)
| Terminated.

(** An integer written where the end of a run is expected is the code
    main returns. *)
Coercion Exit : Z >-> exit.

Definition main (w : World) (argv : list string) : Run exit :=
  emit (Cout banner);;
  '(ok, vm) ← parse_args w argv;
  match ok with
  | Uncaught => mret Terminated
  | Verdict ok =>
      if negb ok then mret (Exit (-1))
      else
        '(ok, y_peid) ← (if nonzero (count_flag (peid vm))
                         then load_rules w new_yara peid_rules
                         else mret (true, new_yara));
        if negb ok
        then emit (Cerr ("[!] Error: Could not load PEiD signatures!" +:+ endl));;
             mret (Exit 1)
        else
          '(ok, y_clamav) ← (if nonzero (count_flag (clamav vm))
                             then load_rules w new_yara clamav_rules
                             else mret (true, new_yara));
          if negb ok
          then emit (Cerr ("[!] Error: Could not load ClamAV signatures!" +:+ endl));;
               mret (Exit 1)
          else
            analysis_loop w vm y_peid y_clamav (get_input_files w vm);;
            mret (Exit 0)
  end.

(** ** Sample environments *)

Module Sample.

(** A small reader of long options, enough to build concrete runs: the
    first argument is the program name, a word that does not start an
    option is an input file, [--dump] takes the next word. *)
Fixpoint read_options (args : list string) (vm : variables_map)
    : string + variables_map :=
  match args with
  | [] => inr vm
  | a :: rest =>
      if String.eqb a "--help" then
        read_options rest (mk_vm true (pe vm) (recursive vm) (dump vm) (hashes vm)
                                 (extract vm) (peid vm) (clamav vm))
      else if String.eqb a "--recursive" then
        read_options rest (mk_vm (help vm) (pe vm) true (dump vm) (hashes vm)
                                 (extract vm) (peid vm) (clamav vm))
      else if String.eqb a "--hashes" then
        read_options rest (mk_vm (help vm) (pe vm) (recursive vm) (dump vm) true
                                 (extract vm) (peid vm) (clamav vm))
      else if String.eqb a "--peid" then
        read_options rest (mk_vm (help vm) (pe vm) (recursive vm) (dump vm) (hashes vm)
                                 (extract vm) true (clamav vm))
      else if String.eqb a "--clamav" then
        read_options rest (mk_vm (help vm) (pe vm) (recursive vm) (dump vm) (hashes vm)
                                 (extract vm) (peid vm) true)
      else if String.eqb a "--dump" then
        match rest with
        | v :: rest' =>
            read_options rest' (mk_vm (help vm) (pe vm) (recursive vm)
                                      (Some (push_back (as_strings (dump vm)) v)) (hashes vm)
                                      (extract vm) (peid vm) (clamav vm))
        | [] => inl "the required argument for option '--dump' is missing"
        end
      else if String.prefix "--" a then inl ("unrecognised option '" +:+ a +:+ "'")
      else
        read_options rest (mk_vm (help vm) (Some (push_back (as_strings (pe vm)) a))
                                 (recursive vm) (dump vm) (hashes vm)
                                 (extract vm) (peid vm) (clamav vm))
  end.

Definition reader (argv : list string) : string + variables_map :=
  read_options (tail argv) empty_vm.

(** A file system with two PE images, a text file and a directory
    [samples] that holds one image, one text file and a
    subdirectory. *)
Definition files : list string :=
  ["a.exe"; "b.exe"; "notes.txt"; "samples/c.exe"; "samples/readme.txt"].
Definition directories : list string := ["samples"; "samples/old"].
Definition images : list string := ["a.exe"; "b.exe"; "samples/c.exe"].

Definition member (l : list string) (x : string) : bool :=
  existsb (String.eqb x) l.

Definition entries (d : string) : list string :=
  if String.eqb d "samples"
  then ["samples/c.exe"; "samples/old"; "samples/readme.txt"]
  else if String.eqb d "samples/old" then ["samples/old/d.exe"]
  else [].

Definition upx : Match := mk_match "UPX" {[ "packer_name" := "UPX v3.0" ]}.
Definition aspack : Match := mk_match "ASPack" {[ "packer_name" := "ASPack v2.12" ]}.
Definition eicar : Match := mk_match "Eicar" {[ "signature" := "Eicar-Test-Signature" ]}.
Definition text : Match := mk_match "text" {[ "description" := "ASCII text" ]}.

Definition scan (rule_file target : string) : matches :=
  if String.eqb rule_file peid_rules && String.eqb target "a.exe" then [upx; aspack]
  else if String.eqb rule_file clamav_rules && String.eqb target "a.exe" then [eicar]
  else if String.eqb rule_file magic_rules && String.eqb target "notes.txt" then [text]
  else [].

(** Every rule bundle loads. *)
Definition world : World :=
  mk_world reader "Usage" (fun p => member files p || member directories p)
           (fun _ => false)
           (member directories) entries (member images) (fun _ => true) scan.

(** The same machine without the PEiD bundle. *)
Definition world_without_peid : World :=
  mk_world reader "Usage" (fun p => member files p || member directories p)
           (fun _ => false)
           (member directories) entries (member images)
           (fun r => negb (String.eqb r peid_rules)) scan.

(** The same machine without the ClamAV bundle. *)
Definition world_without_clamav : World :=
  mk_world reader "Usage" (fun p => member files p || member directories p)
           (fun _ => false)
           (member directories) entries (member images)
           (fun r => negb (String.eqb r clamav_rules)) scan.

End Sample.

(** ** Vocabulary of the statements *)

(** The engine an option leaves behind, and what loading it writes. *)
Definition engine (given : bool) (rule_file : string) : Yara :=
  if given then mk_yara (Some rule_file) else new_yara.

Definition loading (w : World) (given : bool) (rule_file : string) : list event :=
  if given then [LoadRules rule_file (rules_load w rule_file)] else [].

(** The events that belong to the analysis of an input file: opening it as
    a PE, querying the model, scanning it. *)
Definition analysis_event (e : event) : bool :=
  match e with
  | PeOpen _ | PeCall _ _ | ScanFile _ _ => true
  | _ => false
  end.

Definition no_analysis (tr : list event) : Prop :=
  Forall (fun e => analysis_event e = false) tr.

(** What one input contributes to the targets under [--recursive]: itself
    when it is not a directory, otherwise those of its entries that are
    not directories. *)
Definition targets_of_input (w : World) (it : string) : list string :=
  if fs_is_directory w it
  then List.filter (fun entry => negb (fs_is_directory w entry)) (directory_iterator w it)
  else [it].

(** Whether a character occurs in a string. *)
Fixpoint occurs (c : ascii) (s : string) : bool :=
  match s with
  | EmptyString => false
  | String d rest => Ascii.eqb d c || occurs c rest
  end.

(** The categories of the help text with the accessor of each, in the
    order in which [handle_dump_option] tests them. *)
Definition dump_table (compute_hashes : bool) : list (string * accessor) :=
  [("dos", dump_dos_header); ("pe", dump_pe_header);
   ("opt", dump_image_optional_header); ("sections", dump_section_table);
   ("imports", dump_imports); ("exports", dump_exports);
   ("resources", dump_resources compute_hashes); ("version", dump_version_info);
   ("debug", dump_debug_info); ("relocations", dump_relocations);
   ("tls", dump_tls); ("certificates", dump_certificates)].

(** The recognized set: "all" and the twelve categories. *)
Definition recognized (c : string) : bool :=
  String.eqb c "all" || existsb (fun entry => String.eqb c (fst entry)) (dump_table false).

Definition requested (categories : list string) (c : string) : bool :=
  found categories "all" || found categories c.

(** What an engine answers on a target. *)
Definition matches_of (w : World) (y : Yara) (target : string) : matches :=
  match loaded y with
  | Some rule_file => rules_scan w rule_file target
  | None => []
  end.

(** A title line, then one line per match with the metadata field [key],
    in the order of the match list; nothing for an empty list. *)
Definition listing (out : string -> event) (title key : string) (m : matches)
    : list event :=
  match m with
  | [] => []
  | _ => out (title +:+ endl) :: map (fun x => out (tab +:+ field x key +:+ endl)) m
  end.

(** The report of a scan on the standard output, closed by an empty
    line, and the scan of a parsed PE followed by its report. *)
Definition printed_matches (title key : string) (m : matches) : list event :=
  match m with
  | [] => []
  | _ => listing Cout title key m ++ [Cout endl]
  end.

Definition signature_report (w : World) (y : Yara) (title key target : string)
    : list event :=
  ScanFile y target :: printed_matches title key (matches_of w y target).

(** The file-type detection that follows a failed parse. *)
Definition magic_report (w : World) (it : string) : list event :=
  if fs_exists w it && negb (fs_is_directory w it)
  then LoadRules magic_rules (rules_load w magic_rules) ::
       (if rules_load w magic_rules
        then ScanFile (mk_yara (Some magic_rules)) it ::
             listing Cerr "Detected file type(s):" "description"
                     (rules_scan w magic_rules it)
        else [])
  else [].

Definition dump_stage (vm : variables_map) (p : PE) : list event :=
  match dump vm with
  | Some dump_args =>
      trace (handle_dump_option (split_categories dump_args) (hashes vm) p)
  | None => [PeCall (get_path p) dump_summary]
  end.

Definition extract_stage (vm : variables_map) (p : PE) : list event :=
  match extract vm with
  | Some destination => [PeCall (get_path p) (extract_resources destination)]
  | None => []
  end.

(** The run gets to its loop: the arguments are accepted and every bundle
    asked for is loaded. *)
Definition reaches_loop (w : World) (argv : list string) (vm : variables_map) : Prop :=
  value (parse_args w argv) = (true, vm) /\
  (peid vm = true -> rules_load w peid_rules = true) /\
  (clamav vm = true -> rules_load w clamav_rules = true).

Definition more_after (after : list string) : bool :=
  match after with [] => false | _ => true end.

(** The twelve dump accessors, as opposed to the summary, the extraction
    of resources and the hashes. *)
Definition is_dump_accessor (a : accessor) : bool :=
  match a with
  | dump_summary | extract_resources _ | dump_hashes => false
  | _ => true
  end.

Definition with_dump (vm : variables_map) (d : option (list string)) : variables_map :=
  mk_vm (help vm) (pe vm) (recursive vm) d (hashes vm) (extract vm) (peid vm) (clamav vm).

Definition is_separator (e : event) : bool :=
  match e with
  | Cout text => String.eqb text separator
  | _ => false
  end.

(** The number of separator lines written during a run. *)
Definition separators (tr : list event) : nat := length (List.filter is_separator tr).

(** ** Vocabulary of the further properties *)

(** The paths opened as a PE, in the order of the events. *)
Definition opened (tr : list event) : list string :=
  omap (fun e => match e with PeOpen path => Some path | _ => None end) tr.

(** The number of times a given rule file is loaded during a run. *)
Definition is_load (rule_file : string) (e : event) : bool :=
  match e with
  | LoadRules f _ => String.eqb f rule_file
  | _ => false
  end.

Definition rule_loads (rule_file : string) (tr : list event) : nat :=
  length (List.filter (is_load rule_file) tr).

(** The events that are a [std::cout] statement, and those that are a
    [std::cerr] statement, of main.cpp itself.  What the PE model and the
    engines write while they are called is not an event. *)
Definition cout_statement (e : event) : bool :=
  match e with Cout _ => true | _ => false end.

Definition cerr_statement (e : event) : bool :=
  match e with Cerr _ => true | _ => false end.

(** The targets for which the magic bundle is loaded: those that fail to
    parse, exist and are not a directory. *)
Definition needs_magic (w : World) (it : string) : bool :=
  negb (pe_parses w it) && (fs_exists w it && negb (fs_is_directory w it)).

(** Tokens written one after the other with a separator in between. *)
Fixpoint join (sep : ascii) (tokens : list string) : string :=
  match tokens with
  | [] => EmptyString
  | [t] => t
  | t :: rest => t +:+ String sep (join sep rest)
  end.

(** A token as the tokenizer produces them: not empty, without the
    separator. *)
Definition plain_token (sep : ascii) (t : string) : Prop :=
  t <> EmptyString /\ occurs sep t = false.

(** The diagnostic of a run whose arguments are rejected. *)
Definition rejection (w : World) (argv : list string) (d : event) : Prop :=
  match command_line_parser w argv with
  | inl what =>
      d = Cerr ("[!] Error: Could not parse command line (" +:+ what +:+ ")."
                  +:+ endl +:+ endl)
  | inr vm =>
      if help vm || negb (nonzero (count (pe vm)))
      then d = Cout (desc w +:+ endl)
      else exists f, f ∈ as_strings (pe vm) /\ fs_exists w f = false /\
                     d = Cerr ("[!] Error: " +:+ f +:+ " not found!" +:+ endl)
  end.

Module Corner.

(** A machine whose only directory holds nothing but a subdirectory, with
    one PE image beside it. *)
Definition is_dir (p : string) : bool :=
  String.eqb p "vault" || String.eqb p "vault/inner".

Definition entries (d : string) : list string :=
  if String.eqb d "vault" then ["vault/inner"] else [].

Definition world : World :=
  mk_world Sample.reader "Usage"
           (fun p => is_dir p || String.eqb p "a.exe")
           (fun _ => false)
           is_dir entries (fun p => String.eqb p "a.exe") (fun _ => true)
           (fun _ _ => []).

End Corner.

Module Limits.

(** The machine of [Sample] on a file system whose names hold at most 255
    characters: the status of a longer name cannot be determined. *)
Definition name_max : nat := 255.

Definition long_name : string :=
  String.string_of_list_ascii (repeat "z"%char 300).

Definition world : World :=
  mk_world Sample.reader "Usage"
           (fun p => Sample.member Sample.files p || Sample.member Sample.directories p)
           (fun p => Nat.ltb name_max (String.length p))
           (Sample.member Sample.directories) Sample.entries
           (Sample.member Sample.images) (fun _ => true) Sample.scan.

End Limits.

(** * Properties *)

(** ** Tactics for concrete environments *)

(** Discharges [reaches_loop] in a concrete environment. *)
Ltac loop_reached :=
  split; [reflexivity | split; intros given; (reflexivity || discriminate given)].

(** Refutes the membership of an event in an explicit list. *)
Ltac not_listed H :=
  repeat (apply elem_of_cons in H as [H|H]; [discriminate H|]);
  by apply elem_of_nil in H.

(** Proves the membership of an element in an explicit list. *)
Ltac listed :=
  apply list_elem_of_In; unfold dump_table; cbn [In];
  repeat (first [left; reflexivity | right]).

(** ** The writer *)

Lemma trace_bind {A B} (m : Run A) (k : A -> Run B) :
  trace (run_bind m k) = trace m ++ trace (k (value m)).
Proof. reflexivity. Qed.

Lemma value_bind {A B} (m : Run A) (k : A -> Run B) :
  value (run_bind m k) = value (k (value m)).
Proof. reflexivity. Qed.

Lemma trace_when (c : bool) (body : Run unit) :
  trace (when c body) = if c then trace body else [].
Proof. by destruct c. Qed.

Lemma trace_for_each {A} (body : A -> Run unit) (l : list A) :
  trace (for_each body l) = flat_map (fun x => trace (body x)) l.
Proof.
  induction l as [|x l IH]; [done|].
  cbn [for_each flat_map]. by rewrite trace_bind, IH.
Qed.

Lemma trace_for_each_emit {A} (e : A -> event) (l : list A) :
  trace (for_each (fun x => emit (e x)) l) = map e l.
Proof.
  induction l as [|x l IH]; [done|].
  cbn [for_each map]. rewrite trace_bind, IH. done.
Qed.

(** ** std::find *)

Lemma find_le (l : list string) (x : string) : (find l x <= length l)%nat.
Proof.
  induction l as [|y l IH]; cbn; [lia|].
  destruct (String.eqb y x); lia.
Qed.

Lemma found_cons (y : string) (l : list string) (x : string) :
  found (y :: l) x = String.eqb y x || found l x.
Proof.
  unfold found. cbn. destruct (String.eqb y x); [done|].
  cbn. done.
Qed.

Lemma found_In (l : list string) (x : string) : found l x = true <-> x ∈ l.
Proof.
  induction l as [|y l IH].
  - cbn. split; [done|]. intros H. inversion H.
  - rewrite found_cons, orb_true_iff, IH, elem_of_cons, String.eqb_eq.
    split; (intros [H|H]; [left|right]); done.
Qed.

Lemma found_false (l : list string) (x : string) : found l x = false <-> x ∉ l.
Proof.
  rewrite <- found_In. by destruct (found l x).
Qed.

(** ** parse_args *)

Lemma filesystem_exists_found (w : World) (p : string) :
  fs_exists w p = true -> filesystem_exists w p = Answer true.
Proof. unfold filesystem_exists. by intros ->. Qed.

Lemma filesystem_exists_answer (w : World) (p : string) (b : bool) :
  filesystem_exists w p = Answer b -> fs_exists w p = b.
Proof.
  unfold filesystem_exists.
  destruct (fs_exists w p); [congruence|].
  destruct (fs_status_error w p); congruence.
Qed.

Lemma verify_input_files_all (w : World) (l : list string) :
  forallb (fs_exists w) l = true -> verify_input_files w l = mk_run true [].
Proof.
  induction l as [|f l IH]; [done|].
  cbn [forallb verify_input_files]. intros [Hf Hl]%andb_true_iff.
  rewrite (filesystem_exists_found _ _ Hf). cbn. auto.
Qed.

Lemma verify_input_files_true (w : World) (l : list string) :
  value (verify_input_files w l) = true ->
  forallb (fs_exists w) l = true /\ trace (verify_input_files w l) = [].
Proof.
  induction l as [|f l IH]; [done|].
  cbn [forallb verify_input_files]. unfold filesystem_exists.
  destruct (fs_exists w f); cbn; [auto|].
  by destruct (fs_status_error w f).
Qed.


(** [parse_args] only writes on a stream when it rejects its arguments. *)
Lemma parse_args_true (w : World) (argv : list string) (vm : variables_map) :
  value (parse_args w argv) = (true, vm) ->
  command_line_parser w argv = inr vm /\ help vm = false /\
  (exists input_files, pe vm = Some input_files /\
                       forallb (fs_exists w) input_files = true) /\
  trace (parse_args w argv) = [].
Proof.
  unfold parse_args.
  destruct (command_line_parser w argv) as [what|vm']; [done|].
  destruct (help vm') eqn:Hh; [done|].
  destruct (pe vm') as [input_files|] eqn:Hp; [|done].
  cbn. intros H.
  assert (vm' = vm) as -> by congruence.
  assert (value (verify_input_files w input_files) = true) as Hv by congruence.
  apply verify_input_files_true in Hv as [Hall Htr].
  rewrite Htr. eauto 10.
Qed.

Lemma parse_args_accepts (w : World) (argv : list string) (vm : variables_map)
    (input_files : list string) :
  command_line_parser w argv = inr vm -> help vm = false ->
  pe vm = Some input_files -> forallb (fs_exists w) input_files = true ->
  parse_args w argv = mk_run (true, vm) [].
Proof.
  intros Hc Hh Hp Hall. unfold parse_args. rewrite Hc, Hh, Hp. cbn.
  by rewrite (verify_input_files_all _ _ Hall).
Qed.

(** ** The three ways out of main *)

Lemma main_rejects (w : World) (argv : list string) :
  fst (value (parse_args w argv)) = false ->
  main w argv = mk_run (-1) (Cout banner :: trace (parse_args w argv)).
Proof.
  unfold main. destruct (parse_args w argv) as [[ok vm] tr]. cbn.
  intros ->. unfold run_bind. cbn. by rewrite app_nil_r.
Qed.

Lemma main_accepts (w : World) (argv : list string) (vm : variables_map) :
  value (parse_args w argv) = (true, vm) ->
  main w argv =
    if peid vm && negb (rules_load w peid_rules)
    then mk_run 1 [Cout banner; LoadRules peid_rules false;
                   Cerr ("[!] Error: Could not load PEiD signatures!" +:+ endl)]
    else if clamav vm && negb (rules_load w clamav_rules)
    then mk_run 1 (Cout banner :: loading w (peid vm) peid_rules ++
                   [LoadRules clamav_rules false;
                    Cerr ("[!] Error: Could not load ClamAV signatures!" +:+ endl)])
    else mk_run 0 (Cout banner :: loading w (peid vm) peid_rules ++
                   loading w (clamav vm) clamav_rules ++
                   trace (analysis_loop w vm (engine (peid vm) peid_rules)
                                        (engine (clamav vm) clamav_rules)
                                        (get_input_files w vm))).
Proof.
  intros H. pose proof (parse_args_true _ _ _ H) as (_ & _ & _ & Htr).
  unfold main. destruct (parse_args w argv) as [[ok vm'] tr].
  cbn in H, Htr. injection H as -> ->. subst tr.
  unfold loading, engine, load_rules, run_bind.
  cbn [value trace negb mret run_ret emit app].
  destruct (peid vm); cbn [nonzero count_flag Nat.eqb negb andb value trace];
    [destruct (rules_load w peid_rules)|];
    cbn [nonzero count_flag Nat.eqb negb andb value trace];
    (destruct (clamav vm); cbn [nonzero count_flag Nat.eqb negb andb value trace];
     [destruct (rules_load w clamav_rules)|]);
    cbn [value trace negb mret run_ret emit app];
    rewrite ?app_nil_r; reflexivity.
Qed.


(** ** Exit codes and argument validation *)

Lemma main_prints_usage (w : World) (argv : list string) (vm : variables_map) :
  command_line_parser w argv = inr vm ->
  help vm = true \/ pe vm = None ->
  main w argv = mk_run (-1) [Cout banner; Cout (desc w +:+ endl)].
Proof.
  intros Hc Hv.
  assert (parse_args w argv = mk_run (false, vm) [Cout (desc w +:+ endl)]) as Hp.
  { unfold parse_args. rewrite Hc.
    destruct Hv as [-> | ->]; [done|]. by destruct (help vm). }
  rewrite main_rejects; by rewrite Hp.
Qed.

(** C9, as the code has it: when the command line is read and [--help] is
    among the options (whatever else is given), or no input file is, the
    run writes the banner and the usage description, returns -1 and
    analyses nothing; when the command line cannot be read, whatever it
    holds, the run writes the error of the parser on stderr in place of
    the usage, returns -1 and analyses nothing. *)
Theorem help_or_no_input_prints_usage (w : World) (argv : list string) :
  (forall vm,
     command_line_parser w argv = inr vm ->
     help vm = true \/ pe vm = None ->
     main w argv = mk_run (-1) [Cout banner; Cout (desc w +:+ endl)] /\
     no_analysis (trace (main w argv))) /\
  (forall what,
     command_line_parser w argv = inl what ->
     main w argv =
       mk_run (-1) [Cout banner;
                    Cerr ("[!] Error: Could not parse command line (" +:+ what +:+ ")."
                            +:+ endl +:+ endl)] /\
     no_analysis (trace (main w argv))).
Proof.
  split.
  - intros vm Hc Hv. rewrite (main_prints_usage _ _ _ Hc Hv).
    split; [done|]. by repeat constructor.
  - intros what Hc.
    assert (parse_args w argv =
            mk_run (false, empty_vm)
                   [Cerr ("[!] Error: Could not parse command line (" +:+ what +:+ ")."
                            +:+ endl +:+ endl)]) as Hp.
    { unfold parse_args. by rewrite Hc. }
    rewrite main_rejects by (by rewrite Hp). rewrite Hp.
    split; [done|]. by repeat constructor.
Qed.

Lemma help_or_no_input_prints_usage_witness :
  let argv := ["sgstatic"; "a.exe"; "--help"] in
  let vm := mk_vm true (Some ["a.exe"]) false None false None false false in
  command_line_parser Sample.world argv = inr vm /\
  (help vm = true \/ pe vm = None) /\
  main Sample.world argv = mk_run (-1) [Cout banner; Cout ("Usage" +:+ endl)] /\
  command_line_parser Sample.world ["sgstatic"; "a.exe"; "--bogus"]
    = inl "unrecognised option '--bogus'" /\
  no_analysis (trace (main Sample.world ["sgstatic"; "a.exe"; "--bogus"])).
Proof.
  cbv zeta. split; [reflexivity|]. split; [left; reflexivity|]. split.
  - apply (proj1 (help_or_no_input_prints_usage Sample.world
                    ["sgstatic"; "a.exe"; "--help"])
                 (mk_vm true (Some ["a.exe"]) false None false None false false));
      [reflexivity | left; reflexivity].
  - split; [reflexivity|].
    apply (proj2 (help_or_no_input_prints_usage Sample.world
                    ["sgstatic"; "a.exe"; "--bogus"])
                 "unrecognised option '--bogus'").
    reflexivity.
Defined.

(** C9 as stated fails on a command line that cannot be read: with
    [--help] beside an option the parser rejects, and with no input file
    beside such an option, the parser's error is written and the usage is
    not. *)
Lemma usage_not_printed_on_parse_error :
  let with_help := ["sgstatic"; "--help"; "--bogus"] in
  let without_input := ["sgstatic"; "--bogus"] in
  "--help" ∈ with_help /\
  main Sample.world with_help =
    mk_run (-1) [Cout banner;
                 Cerr ("[!] Error: Could not parse command line ("
                         +:+ "unrecognised option '--bogus'" +:+ ")." +:+ endl +:+ endl)]
  /\
  main Sample.world without_input = main Sample.world with_help /\
  Cout (desc Sample.world +:+ endl) ∉ trace (main Sample.world with_help).
Proof.
  cbv zeta. split; [listed|].
  assert (main Sample.world ["sgstatic"; "--help"; "--bogus"] =
          mk_run (-1) [Cout banner;
                       Cerr ("[!] Error: Could not parse command line ("
                               +:+ "unrecognised option '--bogus'" +:+ ")."
                               +:+ endl +:+ endl)]) as -> by reflexivity.
  split; [reflexivity|]. split; [reflexivity|].
  cbn [trace]. intros H. not_listed H.
Qed.




(** C3: a command line that cannot be read, or one that names no input
    file, makes main return -1; once the arguments are accepted and the
    bundles asked for are loaded, main runs its loop over all the targets
    and returns 0, whatever happens to the individual files. *)
Theorem exit_codes (w : World) (argv : list string) :
  (forall what, command_line_parser w argv = inl what -> value (main w argv) = -1) /\
  (forall vm, command_line_parser w argv = inr vm -> pe vm = None ->
              value (main w argv) = -1) /\
  (forall vm, value (parse_args w argv) = (true, vm) ->
              (peid vm = true -> rules_load w peid_rules = true) ->
              (clamav vm = true -> rules_load w clamav_rules = true) ->
              value (main w argv) = 0 /\
              exists before,
                trace (main w argv) =
                  before ++ trace (analysis_loop w vm (engine (peid vm) peid_rules)
                                                 (engine (clamav vm) clamav_rules)
                                                 (get_input_files w vm))).
Proof.
  split; [|split].
  - intros what Hc. rewrite main_rejects; [done|].
    unfold parse_args. by rewrite Hc.
  - intros vm Hc Hp.
    by rewrite (main_prints_usage _ _ _ Hc (or_intror Hp)).
  - intros vm Hok Hpeid Hclamav. rewrite (main_accepts _ _ _ Hok).
    assert (peid vm && negb (rules_load w peid_rules) = false) as ->.
    { destruct (peid vm); [by rewrite Hpeid | done]. }
    assert (clamav vm && negb (rules_load w clamav_rules) = false) as ->.
    { destruct (clamav vm); [by rewrite Hclamav | done]. }
    split; [done|]. cbn [trace].
    exists (Cout banner :: loading w (peid vm) peid_rules ++
            loading w (clamav vm) clamav_rules).
    by rewrite <- !app_comm_cons, <- app_assoc.
Qed.

Lemma exit_codes_witness :
  value (main Sample.world ["sgstatic"; "a.exe"; "--bogus"]) = -1 /\
  value (main Sample.world ["sgstatic"; "--peid"]) = -1 /\
  value (main Sample.world ["sgstatic"; "notes.txt"; "a.exe"; "--peid"]) = 0.
Proof.
  split; [|split].
  - apply (proj1 (exit_codes Sample.world ["sgstatic"; "a.exe"; "--bogus"])
                 "unrecognised option '--bogus'").
    reflexivity.
  - apply (proj1 (proj2 (exit_codes Sample.world ["sgstatic"; "--peid"]))
                 (mk_vm false None false None false None true false));
      reflexivity.
  - apply (proj2 (proj2 (exit_codes Sample.world
                           ["sgstatic"; "notes.txt"; "a.exe"; "--peid"]))
                 (mk_vm false (Some ["notes.txt"; "a.exe"]) false None false None
                        true false));
      [reflexivity | reflexivity | discriminate].
Defined.

(** C2: with accepted arguments, when [--peid] is given and
    resources/peid.yara does not load, or [--clamav] is given and
    resources/clamav.yara does not load, main writes the error of the
    bundle that failed as its last action, returns 1, and has analysed no
    input file. *)
Theorem rule_load_failure_is_fatal (w : World) (argv : list string)
    (vm : variables_map) :
  value (parse_args w argv) = (true, vm) ->
  (peid vm = true /\ rules_load w peid_rules = false) \/
  (clamav vm = true /\ rules_load w clamav_rules = false) ->
  value (main w argv) = 1 /\
  last (trace (main w argv)) =
    Some (Cerr (if peid vm && negb (rules_load w peid_rules)
                then "[!] Error: Could not load PEiD signatures!" +:+ endl
                else "[!] Error: Could not load ClamAV signatures!" +:+ endl)) /\
  no_analysis (trace (main w argv)).
Proof.
  intros Hok Hfail. rewrite (main_accepts _ _ _ Hok).
  destruct (peid vm && negb (rules_load w peid_rules)) eqn:Hp.
  { cbn. repeat split. by repeat constructor. }
  destruct Hfail as [[H1 H2] | [H1 H2]].
  { rewrite H1, H2 in Hp. done. }
  rewrite H1, H2. cbn [andb negb value trace]. split; [done|].
  unfold loading. destruct (peid vm); cbn; (split; [done|]); by repeat constructor.
Qed.

Lemma rule_load_failure_is_fatal_witness :
  let argv := ["sgstatic"; "a.exe"; "--peid"; "--clamav"] in
  let vm := mk_vm false (Some ["a.exe"]) false None false None true true in
  value (parse_args Sample.world_without_clamav argv) = (true, vm) /\
  clamav vm = true /\
  rules_load Sample.world_without_clamav clamav_rules = false /\
  main Sample.world_without_clamav argv
    = mk_run 1 [Cout banner; LoadRules peid_rules true; LoadRules clamav_rules false;
                Cerr ("[!] Error: Could not load ClamAV signatures!" +:+ endl)] /\
  value (main Sample.world_without_clamav argv) = 1 /\
  no_analysis (trace (main Sample.world_without_clamav argv)).
Proof.
  cbv zeta. do 4 (split; [reflexivity|]).
  pose proof (rule_load_failure_is_fatal Sample.world_without_clamav
                ["sgstatic"; "a.exe"; "--peid"; "--clamav"]
                (mk_vm false (Some ["a.exe"]) false None false None true true)
                eq_refl (or_intror (conj eq_refl eq_refl))) as (H1 & _ & H3).
  exact (conj H1 H3).
Defined.

(** ** get_input_files *)

Lemma directory_loop_spec (w : World) (entries targets : list string) :
  directory_loop w entries targets =
  targets ++ List.filter (fun entry => negb (fs_is_directory w entry)) entries.
Proof.
  revert targets. induction entries as [|dit rest IH]; intros targets.
  - cbn. by rewrite app_nil_r.
  - cbn [directory_loop List.filter].
    destruct (negb (fs_is_directory w dit)); rewrite IH; [|done].
    unfold push_back. by rewrite <- app_assoc.
Qed.

Lemma input_loop_spec (w : World) (input targets : list string) :
  input_loop w input targets = targets ++ flat_map (targets_of_input w) input.
Proof.
  revert targets. induction input as [|it rest IH]; intros targets.
  - cbn. by rewrite app_nil_r.
  - cbn [input_loop flat_map]. unfold targets_of_input at 1.
    destruct (fs_is_directory w it); cbn [negb]; rewrite IH.
    + by rewrite directory_loop_spec, <- app_assoc.
    + unfold push_back. by rewrite <- app_assoc.
Qed.

Lemma elem_of_targets_of_input (w : World) (it t : string) :
  t ∈ targets_of_input w it <->
  (t = it /\ fs_is_directory w it = false) \/
  (fs_is_directory w it = true /\ t ∈ directory_iterator w it /\
   fs_is_directory w t = false).
Proof.
  unfold targets_of_input. destruct (fs_is_directory w it).
  - rewrite list_elem_of_In, filter_In, <- list_elem_of_In, negb_true_iff.
    split; [intros [H1 H2]; right; auto|].
    intros [[_ H] | (_ & H1 & H2)]; [done | auto].
  - rewrite list_elem_of_singleton.
    split; [intros ->; left; auto|].
    intros [[H _] | [H _]]; done.
Qed.



(** ** The tokenizer *)

Lemma append_empty_r (s : string) : s +:+ EmptyString = s.
Proof.
  induction s as [|c s IH]; [done|].
  change (String c (s +:+ EmptyString) = String c s). by rewrite IH.
Qed.

Lemma append_assoc (s1 s2 s3 : string) : (s1 +:+ s2) +:+ s3 = s1 +:+ s2 +:+ s3.
Proof.
  induction s1 as [|c s1 IH]; [done|].
  change (String c ((s1 +:+ s2) +:+ s3) = String c (s1 +:+ s2 +:+ s3)). by rewrite IH.
Qed.

(** A separator ends the current token and starts the next one. *)
Lemma tokenizer_from_separator (sep : ascii) (s1 s2 cur : string) :
  tokenizer_from sep cur (s1 +:+ String sep s2) =
  tokenizer_from sep cur s1 ++ tokenizer_from sep EmptyString s2.
Proof.
  revert cur. induction s1 as [|c s1 IH]; intros cur.
  - change (EmptyString +:+ String sep s2) with (String sep s2).
    cbn [tokenizer_from]. by rewrite Ascii.eqb_refl.
  - change (String c s1 +:+ String sep s2) with (String c (s1 +:+ String sep s2)).
    cbn [tokenizer_from]. destruct (Ascii.eqb c sep); [|apply IH].
    by rewrite IH, app_assoc.
Qed.

(** Without a separator the whole string is one token, unless it is
    empty. *)
Lemma tokenizer_from_plain (sep : ascii) (s cur : string) :
  occurs sep s = false -> tokenizer_from sep cur s = flush (cur +:+ s).
Proof.
  revert cur. induction s as [|c s IH]; intros cur; cbn [tokenizer_from occurs].
  - by rewrite append_empty_r.
  - intros [Hc Hs]%orb_false_iff. rewrite Hc, IH by done.
    by rewrite append_assoc.
Qed.

Lemma tokenizer_separator (sep : ascii) (s1 s2 : string) :
  tokenizer (s1 +:+ String sep s2) sep = tokenizer s1 sep ++ tokenizer s2 sep.
Proof. apply tokenizer_from_separator. Qed.

Lemma tokenizer_plain (sep : ascii) (s : string) :
  occurs sep s = false -> tokenizer s sep = flush s.
Proof. apply tokenizer_from_plain. Qed.

Lemma fold_left_push_back {A} (l acc : list A) : fold_left push_back l acc = acc ++ l.
Proof.
  revert acc. induction l as [|x l IH]; intros acc; cbn.
  - by rewrite app_nil_r.
  - rewrite IH. unfold push_back. by rewrite <- app_assoc.
Qed.

Lemma split_categories_spec (dump_args : list string) :
  split_categories dump_args = flat_map (fun it => tokenizer it ","%char) dump_args.
Proof.
  unfold split_categories.
  enough (forall acc,
            fold_left (fun categories it =>
                         fold_left push_back (tokenizer it ","%char) categories)
                      dump_args acc
            = acc ++ flat_map (fun it => tokenizer it ","%char) dump_args) as H
      by apply (H []).
  induction dump_args as [|it rest IH]; intros acc; cbn.
  - by rewrite app_nil_r.
  - by rewrite IH, fold_left_push_back, <- app_assoc.
Qed.

(** ** handle_dump_option *)

Lemma trace_handle_dump_option (categories : list string) (compute_hashes : bool)
    (p : PE) :
  trace (handle_dump_option categories compute_hashes p) =
  flat_map (fun entry => if requested categories (fst entry)
                         then [PeCall (get_path p) (snd entry)] else [])
           (dump_table compute_hashes).
Proof.
  unfold handle_dump_option. cbv zeta.
  rewrite !trace_bind, !trace_when. unfold requested.
  cbn [flat_map dump_table fst snd call emit trace].
  by rewrite app_nil_r.
Qed.

(** ** One iteration of the loop *)

(** Unfolds the sequencing and the calls below a projection of a run. *)
Ltac run_cbn :=
  cbn [run_bind emit load_rules scan_file call PE_open value trace app mret run_ret
       fst snd get_path is_valid loaded when length Nat.ltb Nat.leb negb].

Lemma trace_report_unparseable (w : World) (it : string) (valid : bool) :
  trace (report_unparseable w it (mk_pe it valid)) =
  Cerr ("[!] Error: Could not parse " +:+ it +:+ "!" +:+ endl) ::
  magic_report w it ++ [Cerr endl].
Proof.
  unfold report_unparseable, magic_report. run_cbn. f_equal. f_equal.
  destruct (fs_exists w it && negb (fs_is_directory w it)); [|done].
  run_cbn. destruct (rules_load w magic_rules); [|done].
  run_cbn. do 2 f_equal.
  destruct (rules_scan w magic_rules it) as [|x m]; [done|].
  run_cbn. by rewrite trace_for_each_emit.
Qed.

Lemma trace_signature_stage (w : World) (y : Yara) (title key : string) (p : PE) :
  trace (m ← scan_file w y (get_path p);
         when (0 <? length m)%nat
           (emit (Cout (title +:+ endl));;
            for_each (fun x => emit (Cout (tab +:+ field x key +:+ endl))) m;;
            emit (Cout endl)))
  = signature_report w y title key (get_path p).
Proof.
  unfold signature_report, printed_matches, matches_of. run_cbn. f_equal.
  destruct (match loaded y with Some _ => _ | None => _ end) as [|x m]; [done|].
  run_cbn. by rewrite trace_for_each_emit.
Qed.

Lemma nonzero_count_flag (b : bool) : nonzero (count_flag b) = b.
Proof. by destruct b. Qed.

Lemma trace_report_pe (w : World) (vm : variables_map) (y_peid y_clamav : Yara)
    (p : PE) (more : bool) :
  trace (report_pe w vm y_peid y_clamav p more) =
  dump_stage vm p ++ extract_stage vm p ++
  (if hashes vm then [PeCall (get_path p) dump_hashes] else []) ++
  (if peid vm
   then signature_report w y_peid "PEiD Signature:" "packer_name" (get_path p)
   else []) ++
  (if clamav vm
   then signature_report w y_clamav "ClamAV Signature:" "signature" (get_path p)
   else []) ++
  (if more then [Cout separator] else []).
Proof.
  unfold report_pe. rewrite !trace_bind, !trace_when.
  rewrite !trace_signature_stage, !nonzero_count_flag.
  unfold dump_stage, extract_stage.
  by destruct (dump vm), (extract vm), (hashes vm), (peid vm), (clamav vm), more.
Qed.

Lemma trace_analyze (w : World) (vm : variables_map) (y_peid y_clamav : Yara)
    (it : string) (more : bool) :
  trace (analyze w vm y_peid y_clamav it more) =
  PeOpen it ::
  (if pe_parses w it
   then trace (report_pe w vm y_peid y_clamav (mk_pe it true) more)
   else trace (report_unparseable w it (mk_pe it false))).
Proof.
  unfold analyze, PE_open. rewrite !trace_bind.
  cbn [emit trace app value run_bind mret run_ret is_valid].
  by destruct (pe_parses w it).
Qed.


(** ** The loop over the targets *)

Lemma trace_analysis_loop_cons (w : World) (vm : variables_map)
    (y_peid y_clamav : Yara) (it : string) (rest : list string) :
  trace (analysis_loop w vm y_peid y_clamav (it :: rest)) =
  trace (analyze w vm y_peid y_clamav it (more_after rest)) ++
  trace (analysis_loop w vm y_peid y_clamav rest).
Proof. reflexivity. Qed.

(** No iteration ends the loop: whatever the outcome for [it], the
    targets after it are analysed next. *)
Lemma trace_analysis_loop_at (w : World) (vm : variables_map)
    (y_peid y_clamav : Yara) (before : list string) (it : string)
    (after : list string) :
  exists earlier,
    trace (analysis_loop w vm y_peid y_clamav (before ++ it :: after)) =
    earlier ++ trace (analyze w vm y_peid y_clamav it (more_after after))
            ++ trace (analysis_loop w vm y_peid y_clamav after).
Proof.
  induction before as [|b before [earlier IH]].
  - by exists [].
  - exists (trace (analyze w vm y_peid y_clamav b (more_after (before ++ it :: after)))
            ++ earlier).
    rewrite <- app_comm_cons, trace_analysis_loop_cons, IH.
    by rewrite <- app_assoc.
Qed.

Lemma main_reaches_loop (w : World) (argv : list string) (vm : variables_map) :
  reaches_loop w argv vm ->
  main w argv =
  mk_run 0 (Cout banner :: loading w (peid vm) peid_rules ++
            loading w (clamav vm) clamav_rules ++
            trace (analysis_loop w vm (engine (peid vm) peid_rules)
                                 (engine (clamav vm) clamav_rules)
                                 (get_input_files w vm))).
Proof.
  intros (Hok & Hpeid & Hclamav). rewrite (main_accepts _ _ _ Hok).
  assert (peid vm && negb (rules_load w peid_rules) = false) as ->.
  { destruct (peid vm); [by rewrite Hpeid | done]. }
  assert (clamav vm && negb (rules_load w clamav_rules) = false) as ->.
  { destruct (clamav vm); [by rewrite Hclamav | done]. }
  done.
Qed.

Lemma main_at_target (w : World) (argv : list string) (vm : variables_map)
    (before : list string) (it : string) (after : list string) :
  reaches_loop w argv vm ->
  get_input_files w vm = before ++ it :: after ->
  value (main w argv) = 0 /\
  exists earlier,
    trace (main w argv) =
    earlier ++
    trace (analyze w vm (engine (peid vm) peid_rules) (engine (clamav vm) clamav_rules)
                   it (more_after after)) ++
    trace (analysis_loop w vm (engine (peid vm) peid_rules)
                         (engine (clamav vm) clamav_rules) after).
Proof.
  intros Hloop Htargets. rewrite (main_reaches_loop _ _ _ Hloop), Htargets.
  split; [done|]. cbn [trace].
  destruct (trace_analysis_loop_at w vm (engine (peid vm) peid_rules)
              (engine (clamav vm) clamav_rules) before it after) as [earlier ->].
  exists (Cout banner :: loading w (peid vm) peid_rules ++
          loading w (clamav vm) clamav_rules ++ earlier).
  by rewrite <- !app_comm_cons, <- !app_assoc.
Qed.

(** ** Files that are not PE images *)

(** C1, as the code has it: for a target whose parse fails the run writes
    the error on stderr; only when the target exists and is not a directory
    does it load resources/magic.yara, and only when that load succeeds
    does it scan the target and list the [description] field of every
    match; it then writes an empty line on stderr and goes on with the
    targets that follow, and main returns 0. *)
Theorem unparseable_target_is_reported (w : World) (argv : list string)
    (vm : variables_map) (before : list string) (it : string) (after : list string) :
  reaches_loop w argv vm ->
  get_input_files w vm = before ++ it :: after ->
  pe_parses w it = false ->
  value (main w argv) = 0 /\
  exists earlier,
    trace (main w argv) =
    earlier ++
    [PeOpen it; Cerr ("[!] Error: Could not parse " +:+ it +:+ "!" +:+ endl)] ++
    magic_report w it ++ [Cerr endl] ++
    trace (analysis_loop w vm (engine (peid vm) peid_rules)
                         (engine (clamav vm) clamav_rules) after).
Proof.
  intros Hloop Htargets Hpe.
  destruct (main_at_target _ _ _ _ _ _ Hloop Htargets) as (Hexit & earlier & Htrace).
  split; [done|]. exists earlier.
  rewrite Htrace, trace_analyze, Hpe, trace_report_unparseable.
  cbn [app]. by rewrite <- !app_assoc.
Qed.

Lemma unparseable_target_is_reported_witness :
  let argv := ["sgstatic"; "notes.txt"; "a.exe"] in
  let vm := mk_vm false (Some ["notes.txt"; "a.exe"]) false None false None false false in
  reaches_loop Sample.world argv vm /\
  get_input_files Sample.world vm = [] ++ "notes.txt" :: ["a.exe"] /\
  pe_parses Sample.world "notes.txt" = false /\
  value (main Sample.world argv) = 0 /\
  exists earlier,
    trace (main Sample.world argv) =
    earlier ++
    [PeOpen "notes.txt";
     Cerr ("[!] Error: Could not parse " +:+ "notes.txt" +:+ "!" +:+ endl)] ++
    magic_report Sample.world "notes.txt" ++ [Cerr endl] ++
    trace (analysis_loop Sample.world vm new_yara new_yara ["a.exe"]).
Proof.
  cbv zeta. split; [loop_reached|]. split; [reflexivity|]. split; [reflexivity|].
  apply (unparseable_target_is_reported Sample.world
           ["sgstatic"; "notes.txt"; "a.exe"]
           (mk_vm false (Some ["notes.txt"; "a.exe"]) false None false None false false)
           [] "notes.txt" ["a.exe"]);
    [loop_reached | reflexivity | reflexivity].
Defined.

(** C1 as stated fails on a directory given as input without
    [--recursive]: its parse fails, yet resources/magic.yara is never
    loaded and nothing is scanned. *)
Lemma directory_target_without_magic :
  let r := main Sample.world ["sgstatic"; "samples"] in
  get_input_files Sample.world
    (mk_vm false (Some ["samples"]) false None false None false false) = ["samples"] /\
  pe_parses Sample.world "samples" = false /\
  r = mk_run 0 [Cout banner; PeOpen "samples";
                Cerr ("[!] Error: Could not parse samples!" +:+ endl); Cerr endl] /\
  ~ (exists ok, LoadRules magic_rules ok ∈ trace r) /\
  ~ (exists y, ScanFile y "samples" ∈ trace r).
Proof.
  cbv zeta. split; [reflexivity|]. split; [reflexivity|].
  assert (main Sample.world ["sgstatic"; "samples"] =
          mk_run 0 [Cout banner; PeOpen "samples";
                    Cerr ("[!] Error: Could not parse samples!" +:+ endl); Cerr endl])
    as -> by reflexivity.
  split; [reflexivity|]. cbn [trace].
  split; intros [x H]; not_listed H.
Qed.

(** ** Signature scans of a parsed PE *)

Lemma report_pe_around_peid (w : World) (vm : variables_map) (y_peid y_clamav : Yara)
    (p : PE) (more : bool) :
  peid vm = true ->
  exists earlier later,
    trace (report_pe w vm y_peid y_clamav p more) =
    earlier ++ signature_report w y_peid "PEiD Signature:" "packer_name" (get_path p)
            ++ later.
Proof.
  intros Hpeid. rewrite trace_report_pe, Hpeid.
  exists (dump_stage vm p ++ extract_stage vm p ++
          (if hashes vm then [PeCall (get_path p) dump_hashes] else [])).
  eexists. by rewrite <- !app_assoc.
Qed.

Lemma report_pe_around_clamav (w : World) (vm : variables_map) (y_peid y_clamav : Yara)
    (p : PE) (more : bool) :
  clamav vm = true ->
  exists earlier later,
    trace (report_pe w vm y_peid y_clamav p more) =
    earlier ++ signature_report w y_clamav "ClamAV Signature:" "signature" (get_path p)
            ++ later.
Proof.
  intros Hclamav. rewrite trace_report_pe, Hclamav.
  exists (dump_stage vm p ++ extract_stage vm p ++
          (if hashes vm then [PeCall (get_path p) dump_hashes] else []) ++
          (if peid vm
           then signature_report w y_peid "PEiD Signature:" "packer_name" (get_path p)
           else [])).
  eexists. by rewrite <- !app_assoc.
Qed.

(** C6: in a run that reaches its loop, for a target that parses as a PE,
    [--peid] makes the driver scan the target with the engine that loaded
    resources/peid.yara and, when there is a match, write the title, the
    [packer_name] field of every match in the order of the match list, and
    an empty line; [--clamav] does the same with resources/clamav.yara and
    the [signature] field. *)
Theorem signatures_are_listed (w : World) (argv : list string) (vm : variables_map)
    (before : list string) (it : string) (after : list string) :
  reaches_loop w argv vm ->
  get_input_files w vm = before ++ it :: after ->
  pe_parses w it = true ->
  (peid vm = true ->
   exists earlier later,
     trace (main w argv) =
     earlier ++
     ScanFile (mk_yara (Some peid_rules)) it ::
     printed_matches "PEiD Signature:" "packer_name" (rules_scan w peid_rules it) ++
     later) /\
  (clamav vm = true ->
   exists earlier later,
     trace (main w argv) =
     earlier ++
     ScanFile (mk_yara (Some clamav_rules)) it ::
     printed_matches "ClamAV Signature:" "signature" (rules_scan w clamav_rules it) ++
     later).
Proof.
  intros Hloop Htargets Hpe.
  destruct (main_at_target _ _ _ _ _ _ Hloop Htargets) as (_ & earlier & ->).
  rewrite trace_analyze, Hpe.
  split; intros Hgiven.
  - destruct (report_pe_around_peid w vm (engine (peid vm) peid_rules)
                (engine (clamav vm) clamav_rules) (mk_pe it true) (more_after after)
                Hgiven) as (e & l & ->).
    rewrite Hgiven. cbn [engine get_path signature_report matches_of loaded].
    exists (earlier ++ PeOpen it :: e). eexists.
    rewrite <- !app_assoc, <- !app_comm_cons, <- !app_assoc. reflexivity.
  - destruct (report_pe_around_clamav w vm (engine (peid vm) peid_rules)
                (engine (clamav vm) clamav_rules) (mk_pe it true) (more_after after)
                Hgiven) as (e & l & ->).
    rewrite Hgiven. cbn [engine get_path signature_report matches_of loaded].
    exists (earlier ++ PeOpen it :: e). eexists.
    rewrite <- !app_assoc, <- !app_comm_cons, <- !app_assoc. reflexivity.
Qed.

Lemma signatures_are_listed_witness :
  let argv := ["sgstatic"; "b.exe"; "a.exe"; "--peid"] in
  let vm := mk_vm false (Some ["b.exe"; "a.exe"]) false None false None true false in
  reaches_loop Sample.world argv vm /\
  get_input_files Sample.world vm = ["b.exe"] ++ "a.exe" :: [] /\
  pe_parses Sample.world "a.exe" = true /\
  peid vm = true /\
  exists earlier later,
    trace (main Sample.world argv) =
    earlier ++
    ScanFile (mk_yara (Some peid_rules)) "a.exe" ::
    printed_matches "PEiD Signature:" "packer_name" [Sample.upx; Sample.aspack] ++
    later.
Proof.
  cbv zeta. split; [loop_reached|]. do 3 (split; [reflexivity|]).
  apply (proj1 (signatures_are_listed Sample.world
                  ["sgstatic"; "b.exe"; "a.exe"; "--peid"]
                  (mk_vm false (Some ["b.exe"; "a.exe"]) false None false None true false)
                  ["b.exe"] "a.exe" []
                  ltac:(loop_reached) eq_refl eq_refl) eq_refl).
Defined.

Example printed_matches_sample :
  printed_matches "PEiD Signature:" "packer_name" [Sample.upx; Sample.aspack] =
  [Cout ("PEiD Signature:" +:+ endl); Cout (tab +:+ "UPX v3.0" +:+ endl);
   Cout (tab +:+ "ASPack v2.12" +:+ endl); Cout endl].
Proof. vm_compute. reflexivity. Qed.

(** ** The dump categories *)

Lemma requested_spec (categories : list string) (c : string) :
  requested categories c = true <-> "all" ∈ categories \/ c ∈ categories.
Proof. unfold requested. by rewrite orb_true_iff, !found_In. Qed.

Lemma dump_table_accessors (compute_hashes : bool) (c : string) (a : accessor) :
  (c, a) ∈ dump_table compute_hashes -> is_dump_accessor a = true.
Proof.
  intros H. unfold dump_table in H.
  repeat (apply elem_of_cons in H as [H|H]; [by injection H as -> ->|]).
  by apply elem_of_nil in H.
Qed.

Lemma elem_of_handle_dump_option (categories : list string) (compute_hashes : bool)
    (p : PE) (e : event) :
  e ∈ trace (handle_dump_option categories compute_hashes p) <->
  exists c a, (c, a) ∈ dump_table compute_hashes /\ e = PeCall (get_path p) a /\
              ("all" ∈ categories \/ c ∈ categories).
Proof.
  rewrite trace_handle_dump_option, list_elem_of_In, in_flat_map. split.
  - intros ([c a] & Hin%list_elem_of_In & He). cbn [fst snd] in He.
    destruct (requested categories c) eqn:Hreq; [|by destruct He].
    destruct He as [<-|[]]. exists c, a. by rewrite <- requested_spec.
  - intros (c & a & Hin & -> & Hreq). exists (c, a).
    rewrite <- list_elem_of_In. split; [done|]. cbn [fst snd].
    apply requested_spec in Hreq as ->. by left.
Qed.

Lemma elem_of_printed_matches (title key : string) (m : matches) (e : event) :
  e ∈ printed_matches title key m -> exists text, e = Cout text.
Proof.
  unfold printed_matches, listing. destruct m as [|x m]; [by intros ?%elem_of_nil|].
  rewrite elem_of_app, elem_of_cons, list_elem_of_fmap, list_elem_of_singleton.
  intros [[->|(y & -> & _)]| ->]; eauto.
Qed.

Lemma elem_of_signature_report (w : World) (y : Yara) (title key target : string)
    (e : event) :
  e ∈ signature_report w y title key target ->
  e = ScanFile y target \/ exists text, e = Cout text.
Proof.
  unfold signature_report. rewrite elem_of_cons.
  intros [->|H]; [by left | right]. eapply elem_of_printed_matches, H.
Qed.

(** What follows the dump stage calls no dump accessor and no summary. *)
Lemma later_stages_call (w : World) (vm : variables_map) (y_peid y_clamav : Yara)
    (p : PE) (more : bool) (a : accessor) :
  PeCall (get_path p) a ∈
    extract_stage vm p ++
    (if hashes vm then [PeCall (get_path p) dump_hashes] else []) ++
    (if peid vm
     then signature_report w y_peid "PEiD Signature:" "packer_name" (get_path p)
     else []) ++
    (if clamav vm
     then signature_report w y_clamav "ClamAV Signature:" "signature" (get_path p)
     else []) ++
    (if more then [Cout separator] else []) ->
  is_dump_accessor a = false /\ a <> dump_summary.
Proof.
  rewrite !elem_of_app. intros [H|[H|[H|[H|H]]]].
  - unfold extract_stage in H. destruct (extract vm); [|by apply elem_of_nil in H].
    apply list_elem_of_singleton in H. by injection H as ->.
  - destruct (hashes vm); [|by apply elem_of_nil in H].
    apply list_elem_of_singleton in H. by injection H as ->.
  - destruct (peid vm); [|by apply elem_of_nil in H].
    by apply elem_of_signature_report in H as [H|[text H]].
  - destruct (clamav vm); [|by apply elem_of_nil in H].
    by apply elem_of_signature_report in H as [H|[text H]].
  - destruct more; [|by apply elem_of_nil in H].
    by apply list_elem_of_singleton in H.
Qed.

(** C4: for a target that parses as a PE.  With [--dump], the categories
    are the comma-separated tokens of its arguments, and a dump accessor is
    called on the model exactly when "all" or its own category is among
    them; the summary is not printed.  Without [--dump], the summary is
    printed and no dump accessor is called. *)
Theorem dump_categories_dispatch (w : World) (vm : variables_map)
    (y_peid y_clamav : Yara) (it : string) (more : bool) :
  pe_parses w it = true ->
  let tr := trace (analyze w vm y_peid y_clamav it more) in
  (forall dump_args, dump vm = Some dump_args ->
     let categories := split_categories dump_args in
     categories = flat_map (fun arg => tokenizer arg ","%char) dump_args /\
     (forall a, is_dump_accessor a = true ->
        PeCall it a ∈ tr <->
        exists c, (c, a) ∈ dump_table (hashes vm) /\
                  ("all" ∈ categories \/ c ∈ categories)) /\
     PeCall it dump_summary ∉ tr) /\
  (dump vm = None ->
     PeCall it dump_summary ∈ tr /\
     forall a, is_dump_accessor a = true -> PeCall it a ∉ tr).
Proof.
  intros Hpe. cbv zeta. rewrite trace_analyze, Hpe, trace_report_pe.
  cbn [get_path]. split.
  - intros dump_args Hdump. split; [apply split_categories_spec|].
    unfold dump_stage. rewrite Hdump.
    split.
    + intros a Ha. rewrite elem_of_cons, elem_of_app, elem_of_handle_dump_option.
      cbn [get_path]. split.
      * intros [H|[(c & a' & Hin & H & Hreq)|H]]; [done| |].
        -- injection H as ->. eauto.
        -- apply (later_stages_call w vm y_peid y_clamav (mk_pe it true)) in H.
           destruct H as [H _]. congruence.
      * intros (c & Hin & Hreq). right. left. eauto.
    + rewrite elem_of_cons, elem_of_app, elem_of_handle_dump_option.
      cbn [get_path].
      intros [H|[(c & a' & Hin & H & Hreq)|H]]; [done| |].
      * injection H as <-. by apply dump_table_accessors in Hin.
      * apply (later_stages_call w vm y_peid y_clamav (mk_pe it true)) in H.
        by destruct H as [_ H].
  - intros Hdump. unfold dump_stage. rewrite Hdump. cbn [get_path]. split.
    + apply elem_of_cons. right. apply elem_of_app. left. by apply list_elem_of_singleton.
    + intros a Ha. rewrite elem_of_cons, elem_of_app, list_elem_of_singleton.
      intros [H|[H|H]]; [done| |].
      * injection H as ->. done.
      * apply (later_stages_call w vm y_peid y_clamav (mk_pe it true)) in H.
        destruct H as [H _]. congruence.
Qed.

Lemma dump_categories_dispatch_witness :
  let vm := mk_vm false (Some ["a.exe"]) false (Some ["dos,pe"; "tls"]) false None
                  false false in
  let tr := trace (analyze Sample.world vm new_yara new_yara "a.exe" false) in
  pe_parses Sample.world "a.exe" = true /\
  split_categories ["dos,pe"; "tls"] = ["dos"; "pe"; "tls"] /\
  PeCall "a.exe" dump_tls ∈ tr /\
  (PeCall "a.exe" dump_summary ∉ tr) /\
  tr = [PeOpen "a.exe"; PeCall "a.exe" dump_dos_header; PeCall "a.exe" dump_pe_header;
        PeCall "a.exe" dump_tls].
Proof.
  cbv zeta. split; [reflexivity|]. split; [reflexivity|].
  destruct (dump_categories_dispatch Sample.world
              (mk_vm false (Some ["a.exe"]) false (Some ["dos,pe"; "tls"]) false None
                     false false)
              new_yara new_yara "a.exe" false eq_refl) as [Hdump _].
  destruct (Hdump ["dos,pe"; "tls"] eq_refl) as (_ & Hcalls & Hsummary).
  split; [|split; [exact Hsummary | reflexivity]].
  apply (Hcalls dump_tls eq_refl). exists "tls". split; [listed|].
  right. listed.
Defined.

(** "all" asks for the twelve accessors. *)
Example dump_all_sample :
  trace (handle_dump_option ["all"] true (mk_pe "a.exe" true)) =
  map (PeCall "a.exe")
      [dump_dos_header; dump_pe_header; dump_image_optional_header; dump_section_table;
       dump_imports; dump_exports; dump_resources true; dump_version_info;
       dump_debug_info; dump_relocations; dump_tls; dump_certificates].
Proof. reflexivity. Qed.

(** ** Categories outside the recognized set *)

Lemma found_filter (keep : string -> bool) (l : list string) (x : string) :
  keep x = true -> found (List.filter keep l) x = found l x.
Proof.
  intros Hx. apply eq_true_iff_eq.
  rewrite !found_In, !list_elem_of_In, filter_In. split; [by intros [? _] | auto].
Qed.

Lemma handle_dump_option_filter (categories : list string) (compute_hashes : bool)
    (p : PE) :
  handle_dump_option categories compute_hashes p =
  handle_dump_option (List.filter recognized categories) compute_hashes p.
Proof.
  unfold handle_dump_option.
  by rewrite !(found_filter recognized) by reflexivity.
Qed.

Lemma filter_none (keep : string -> bool) (l : list string) :
  (forall c, c ∈ l -> keep c = false) -> List.filter keep l = [].
Proof.
  induction l as [|c l IH]; [done|]. intros H. cbn [List.filter].
  rewrite (H c) by apply list_elem_of_here.
  apply IH. intros c' Hc'. apply H. by apply list_elem_of_further.
Qed.

Lemma analyze_cases (w : World) (vm : variables_map) (y_peid y_clamav : Yara)
    (it : string) (more : bool) :
  analyze w vm y_peid y_clamav it more =
  (emit (PeOpen it);;
   if pe_parses w it
   then report_pe w vm y_peid y_clamav (mk_pe it true) more
   else report_unparseable w it (mk_pe it false)).
Proof.
  unfold analyze, PE_open, run_bind. run_cbn. by destruct (pe_parses w it).
Qed.

Lemma report_pe_same_categories (w : World) (vm : variables_map)
    (dump_args dump_args' : list string) (y_peid y_clamav : Yara) (p : PE)
    (more : bool) :
  List.filter recognized (split_categories dump_args) =
  List.filter recognized (split_categories dump_args') ->
  report_pe w (with_dump vm (Some dump_args)) y_peid y_clamav p more =
  report_pe w (with_dump vm (Some dump_args')) y_peid y_clamav p more.
Proof.
  intros Hsame. unfold report_pe. cbn [with_dump dump extract hashes peid clamav].
  by rewrite (handle_dump_option_filter (split_categories dump_args)), Hsame,
             <- handle_dump_option_filter.
Qed.

Lemma analysis_loop_same_categories (w : World) (vm : variables_map)
    (dump_args dump_args' : list string) (y_peid y_clamav : Yara)
    (targets : list string) :
  List.filter recognized (split_categories dump_args) =
  List.filter recognized (split_categories dump_args') ->
  analysis_loop w (with_dump vm (Some dump_args)) y_peid y_clamav targets =
  analysis_loop w (with_dump vm (Some dump_args')) y_peid y_clamav targets.
Proof.
  intros Hsame. induction targets as [|it rest IH]; [done|].
  cbn [analysis_loop]. rewrite IH, !analyze_cases.
  by rewrite (report_pe_same_categories w vm dump_args dump_args').
Qed.

(** C10: the events of [handle_dump_option] are exactly the calls of the
    accessors whose category is in the list (of all twelve when "all"
    is): a category outside the recognized set triggers no accessor and
    no error, and a recognized category beside it is still dumped.
    [handle_dump_option] does the same with a list of categories as with
    its recognized categories alone, and nothing at all when none is
    recognized; two accepted command lines in the same environment that
    differ only by unrecognized categories give the same run: same exit
    code, same output on both streams, same calls. *)
Theorem unrecognized_categories_ignored :
  (forall categories compute_hashes p e,
     e ∈ trace (handle_dump_option categories compute_hashes p) <->
     exists c a, (c, a) ∈ dump_table compute_hashes /\ e = PeCall (get_path p) a /\
                 ("all" ∈ categories \/ c ∈ categories)) /\
  (forall categories compute_hashes p,
     handle_dump_option categories compute_hashes p =
     handle_dump_option (List.filter recognized categories) compute_hashes p) /\
  (forall categories compute_hashes p,
     (forall c, c ∈ categories -> recognized c = false) ->
     handle_dump_option categories compute_hashes p = mk_run tt []) /\
  (forall w argv argv' vm dump_args dump_args',
     value (parse_args w argv) = (true, with_dump vm (Some dump_args)) ->
     value (parse_args w argv') = (true, with_dump vm (Some dump_args')) ->
     List.filter recognized (split_categories dump_args) =
     List.filter recognized (split_categories dump_args') ->
     main w argv = main w argv').
Proof.
  split; [exact elem_of_handle_dump_option|].
  split; [exact handle_dump_option_filter|]. split.
  - intros categories compute_hashes p Hnone.
    by rewrite handle_dump_option_filter, (filter_none _ _ Hnone).
  - intros w argv argv' vm dump_args dump_args' Hok Hok' Hsame.
    rewrite (main_accepts _ _ _ Hok), (main_accepts _ _ _ Hok').
    unfold get_input_files. cbn [with_dump peid clamav pe recursive].
    by rewrite (analysis_loop_same_categories w vm dump_args dump_args').
Qed.

Lemma unrecognized_categories_ignored_witness :
  let argv := ["sgstatic"; "a.exe"; "--dump"; "dos,icons"; "--dump"; "headers"] in
  let argv' := ["sgstatic"; "a.exe"; "--dump"; "dos"] in
  let vm := mk_vm false (Some ["a.exe"]) false None false None false false in
  value (parse_args Sample.world argv)
    = (true, with_dump vm (Some ["dos,icons"; "headers"])) /\
  value (parse_args Sample.world argv') = (true, with_dump vm (Some ["dos"])) /\
  List.filter recognized (split_categories ["dos,icons"; "headers"]) =
  List.filter recognized (split_categories ["dos"]) /\
  main Sample.world argv = main Sample.world argv' /\
  handle_dump_option ["icons"; "headers"] false (mk_pe "a.exe" true) = mk_run tt [] /\
  PeCall "a.exe" dump_dos_header ∈
    trace (handle_dump_option ["icons"; "dos"; "headers"] false (mk_pe "a.exe" true)).
Proof.
  cbv zeta. do 3 (split; [reflexivity|]). split; [|split].
  - apply (proj2 (proj2 (proj2 unrecognized_categories_ignored)) Sample.world
                 ["sgstatic"; "a.exe"; "--dump"; "dos,icons"; "--dump"; "headers"]
                 ["sgstatic"; "a.exe"; "--dump"; "dos"]
                 (mk_vm false (Some ["a.exe"]) false None false None false false)
                 ["dos,icons"; "headers"] ["dos"]); reflexivity.
  - apply (proj1 (proj2 (proj2 unrecognized_categories_ignored))).
    intros c Hc. apply list_elem_of_In in Hc. cbn [In] in Hc.
    destruct Hc as [<-|[<-|[]]]; reflexivity.
  - apply (proj1 unrecognized_categories_ignored).
    exists "dos", dump_dos_header. split; [listed|]. split; [reflexivity|].
    right. listed.
Defined.

Example unrecognized_categories_sample :
  trace (handle_dump_option ["icons"; "tls"; "headers"; "dos"] false
                            (mk_pe "a.exe" true)) =
  [PeCall "a.exe" dump_dos_header; PeCall "a.exe" dump_tls].
Proof. reflexivity. Qed.

(** ** Separator lines *)

Lemma separators_app (tr1 tr2 : list event) :
  separators (tr1 ++ tr2) = (separators tr1 + separators tr2)%nat.
Proof. unfold separators. by rewrite List.filter_app, length_app. Qed.

Lemma separators_none (tr : list event) :
  (forall e, e ∈ tr -> is_separator e = false) -> separators tr = 0%nat.
Proof.
  unfold separators. induction tr as [|e tr IH]; [done|]. intros H.
  cbn [List.filter]. rewrite (H e) by apply list_elem_of_here.
  apply IH. intros e' He'. apply H. by apply list_elem_of_further.
Qed.

Lemma tab_line_is_no_separator (s : string) : String.eqb (tab +:+ s) separator = false.
Proof. reflexivity. Qed.

Lemma separators_printed_matches (title key : string) (m : matches) :
  String.eqb (title +:+ endl) separator = false ->
  separators (printed_matches title key m) = 0%nat.
Proof.
  intros Htitle. apply separators_none. intros e.
  unfold printed_matches, listing. destruct m as [|x m]; [by intros ?%elem_of_nil|].
  rewrite elem_of_app, elem_of_cons, list_elem_of_fmap, list_elem_of_singleton.
  intros [[->|(y & -> & _)]| ->]; [done | apply tab_line_is_no_separator | done].
Qed.

Lemma separators_signature_report (w : World) (y : Yara) (title key target : string) :
  String.eqb (title +:+ endl) separator = false ->
  separators (signature_report w y title key target) = 0%nat.
Proof.
  intros Htitle. unfold signature_report.
  change (ScanFile y target :: ?l) with ([ScanFile y target] ++ l).
  by rewrite separators_app, separators_printed_matches.
Qed.

Lemma separators_dump_stage (vm : variables_map) (p : PE) :
  separators (dump_stage vm p) = 0%nat.
Proof.
  unfold dump_stage. destruct (dump vm); [|done].
  apply separators_none. intros e (c & a & _ & -> & _)%elem_of_handle_dump_option.
  done.
Qed.

Lemma separators_report_pe (w : World) (vm : variables_map) (y_peid y_clamav : Yara)
    (p : PE) (more : bool) :
  separators (trace (report_pe w vm y_peid y_clamav p more)) = if more then 1%nat else 0%nat.
Proof.
  rewrite trace_report_pe, !separators_app, separators_dump_stage.
  assert (separators (extract_stage vm p) = 0%nat) as ->
    by (unfold extract_stage; by destruct (extract vm)).
  assert (separators (if hashes vm then [PeCall (get_path p) dump_hashes] else [])
          = 0%nat) as -> by by destruct (hashes vm).
  assert (separators
            (if peid vm
             then signature_report w y_peid "PEiD Signature:" "packer_name" (get_path p)
             else []) = 0%nat) as ->
    by (destruct (peid vm); [by apply separators_signature_report | done]).
  assert (separators
            (if clamav vm
             then signature_report w y_clamav "ClamAV Signature:" "signature" (get_path p)
             else []) = 0%nat) as ->
    by (destruct (clamav vm); [by apply separators_signature_report | done]).
  by destruct more.
Qed.

Lemma separators_report_unparseable (w : World) (it : string) (valid : bool) :
  separators (trace (report_unparseable w it (mk_pe it valid))) = 0%nat.
Proof.
  rewrite trace_report_unparseable. apply separators_none. intros e.
  rewrite elem_of_cons, elem_of_app, list_elem_of_singleton.
  intros [->|[H| ->]]; [done| |done].
  unfold magic_report in H.
  destruct (fs_exists w it && negb (fs_is_directory w it)); [|by apply elem_of_nil in H].
  apply elem_of_cons in H as [->|H]; [done|].
  destruct (rules_load w magic_rules); [|by apply elem_of_nil in H].
  apply elem_of_cons in H as [->|H]; [done|].
  unfold listing in H. destruct (rules_scan w magic_rules it); [by apply elem_of_nil in H|].
  apply elem_of_cons in H as [->|H]; [done|].
  by apply list_elem_of_fmap in H as (y & -> & _).
Qed.

Lemma separators_analyze (w : World) (vm : variables_map) (y_peid y_clamav : Yara)
    (it : string) (more : bool) :
  separators (trace (analyze w vm y_peid y_clamav it more)) =
  if pe_parses w it && more then 1%nat else 0%nat.
Proof.
  rewrite trace_analyze.
  change (PeOpen it :: ?l) with ([PeOpen it] ++ l). rewrite separators_app.
  destruct (pe_parses w it).
  - by rewrite separators_report_pe.
  - by rewrite separators_report_unparseable.
Qed.

Lemma separators_analysis_loop (w : World) (vm : variables_map)
    (y_peid y_clamav : Yara) (targets : list string) :
  separators (trace (analysis_loop w vm y_peid y_clamav targets)) =
  length (List.filter (pe_parses w) (removelast targets)).
Proof.
  induction targets as [|it rest IH]; [done|].
  rewrite trace_analysis_loop_cons, separators_app, separators_analyze, IH.
  destruct rest as [|next rest]; cbn [more_after removelast List.filter length].
  - by rewrite andb_false_r.
  - rewrite andb_true_r. by destruct (pe_parses w it).
Qed.

Lemma last_analyze (w : World) (vm : variables_map) (y_peid y_clamav : Yara)
    (it : string) :
  pe_parses w it = true ->
  last (trace (analyze w vm y_peid y_clamav it true)) = Some (Cout separator).
Proof.
  intros Hpe. rewrite trace_analyze, Hpe, trace_report_pe.
  rewrite !app_assoc, app_comm_cons. apply last_snoc.
Qed.

(** C7, as the code has it: in a run that reaches its loop, an iteration
    writes the separator, once and as its last action, exactly when its
    target was parsed as a PE and is not the last target; an iteration on
    a target that could not be parsed writes none.  The separators of the
    run are therefore as many as the parsed targets among all but the
    last. *)
Theorem separators_follow_parsed_targets (w : World) (argv : list string)
    (vm : variables_map) :
  reaches_loop w argv vm ->
  separators (trace (main w argv)) =
    length (List.filter (pe_parses w) (removelast (get_input_files w vm))) /\
  forall before it after,
    get_input_files w vm = before ++ it :: after ->
    let tr := trace (analyze w vm (engine (peid vm) peid_rules)
                             (engine (clamav vm) clamav_rules) it (more_after after)) in
    if pe_parses w it && more_after after
    then last tr = Some (Cout separator) /\ separators tr = 1%nat
    else separators tr = 0%nat.
Proof.
  intros Hloop. split.
  - rewrite (main_reaches_loop _ _ _ Hloop). cbn [trace].
    change (Cout banner :: ?l) with ([Cout banner] ++ l).
    rewrite !separators_app, separators_analysis_loop.
    assert (forall given rule_file, separators (loading w given rule_file) = 0%nat)
      as Hloading by (by intros []).
    by rewrite !Hloading.
  - intros before it after _. cbv zeta. rewrite separators_analyze.
    destruct (pe_parses w it) eqn:Hpe; [|done].
    destruct (more_after after); [|done].
    split; [by apply last_analyze | done].
Qed.

Lemma separators_follow_parsed_targets_witness :
  let argv := ["sgstatic"; "a.exe"; "notes.txt"; "b.exe"; "samples"] in
  let vm := mk_vm false (Some ["a.exe"; "notes.txt"; "b.exe"; "samples"]) false None
                  false None false false in
  reaches_loop Sample.world argv vm /\
  separators (trace (main Sample.world argv)) = 2%nat.
Proof.
  cbv zeta. split; [loop_reached|].
  apply (proj1 (separators_follow_parsed_targets Sample.world
                  ["sgstatic"; "a.exe"; "notes.txt"; "b.exe"; "samples"]
                  (mk_vm false (Some ["a.exe"; "notes.txt"; "b.exe"; "samples"]) false
                         None false None false false)
                  ltac:(loop_reached))).
Defined.

(** C7 as stated fails when one of the first targets cannot be parsed:
    with two targets of which the first is a text file, no separator is
    written at all. *)
Lemma no_separator_after_unparseable_target :
  let argv := ["sgstatic"; "notes.txt"; "a.exe"] in
  let vm := mk_vm false (Some ["notes.txt"; "a.exe"]) false None false None false false in
  value (parse_args Sample.world argv) = (true, vm) /\
  get_input_files Sample.world vm = ["notes.txt"; "a.exe"] /\
  value (main Sample.world argv) = 0 /\
  (Cout separator ∉ trace (main Sample.world argv)) /\
  separators (trace (main Sample.world argv))
    <> (length (get_input_files Sample.world vm) - 1)%nat.
Proof.
  cbv zeta. do 3 (split; [reflexivity|]).
  split; [|by vm_compute].
  assert (trace (main Sample.world ["sgstatic"; "notes.txt"; "a.exe"]) =
          [Cout banner; PeOpen "notes.txt";
           Cerr ("[!] Error: Could not parse notes.txt!" +:+ endl);
           LoadRules magic_rules true; ScanFile (mk_yara (Some magic_rules)) "notes.txt";
           Cerr ("Detected file type(s):" +:+ endl);
           Cerr (tab +:+ "ASCII text" +:+ endl); Cerr endl;
           PeOpen "a.exe"; PeCall "a.exe" dump_summary]) as -> by (vm_compute; reflexivity).
  intros H. not_listed H.
Qed.

(** * Further properties of the driver *)

(** ** Exit codes and rejected arguments *)

Lemma main_uncaught (w : World) (argv : list string) :
  fst (value (parse_args w argv)) = Uncaught ->
  main w argv = mk_run Terminated (Cout banner :: trace (parse_args w argv)).
Proof.
  unfold main. destruct (parse_args w argv) as [[ok vm] tr]. cbn.
  intros ->. unfold run_bind. cbn. by rewrite app_nil_r.
Qed.



Lemma verify_input_files_false (w : World) (l : list string) :
  value (verify_input_files w l) = false ->
  exists f, f ∈ l /\ fs_exists w f = false /\
            trace (verify_input_files w l) =
            [Cerr ("[!] Error: " +:+ f +:+ " not found!" +:+ endl)].
Proof.
  induction l as [|g l IH]; [done|]. cbn [verify_input_files].
  destruct (filesystem_exists w g) as [[|]|] eqn:Hg; cbn [negb].
  - intros (f & Hin & Hf & Htr)%IH. exists f.
    split; [by apply list_elem_of_further | done].
  - intros _. exists g. split; [apply list_elem_of_here|].
    by rewrite (filesystem_exists_answer _ _ _ Hg).
  - done.
Qed.

(** X2: a run whose arguments are rejected writes the banner and one
    diagnostic, and nothing else: the parser's message on stderr when the
    command line cannot be read (the usage is not printed then), the usage
    on stdout for [--help] or no input file, the name of a missing input
    file on stderr otherwise. *)
Theorem rejected_run_has_one_diagnostic (w : World) (argv : list string) :
  fst (value (parse_args w argv)) = false ->
  exists d, main w argv = mk_run (-1) [Cout banner; d] /\ rejection w argv d.
Proof.
  intros Hrej. rewrite (main_rejects _ _ Hrej). revert Hrej.
  unfold parse_args, rejection.
  destruct (command_line_parser w argv) as [what|vm].
  - intros _. eexists. split; reflexivity.
  - destruct (nonzero (count_flag (help vm)) || negb (nonzero (count (pe vm)))) eqn:Hu.
    + intros _. eexists. split; [reflexivity|].
      rewrite nonzero_count_flag in Hu. by rewrite Hu.
    + rewrite nonzero_count_flag in Hu. rewrite Hu.
      destruct (pe vm) as [input_files|]; [|by destruct (help vm)].
      rewrite value_bind, trace_bind. cbn [mret run_ret value trace fst].
      intros (f & Hin & Hf & Htr)%verify_input_files_false.
      rewrite Htr. eexists. split; [reflexivity|]. exists f. done.
Qed.

Lemma rejected_run_has_one_diagnostic_witness :
  let argv := ["sgstatic"; "a.exe"; "--bogus"] in
  fst (value (parse_args Sample.world argv)) = false /\
  exists d, main Sample.world argv = mk_run (-1) [Cout banner; d] /\
            rejection Sample.world argv d.
Proof.
  cbv zeta. split; [reflexivity|].
  apply (rejected_run_has_one_diagnostic Sample.world ["sgstatic"; "a.exe"; "--bogus"]).
  reflexivity.
Defined.

Lemma verify_input_files_first (w : World) (before : list string) (f : string)
    (after : list string) :
  forallb (fs_exists w) before = true -> filesystem_exists w f = Answer false ->
  verify_input_files w (before ++ f :: after) =
  mk_run false [Cerr ("[!] Error: " +:+ f +:+ " not found!" +:+ endl)].
Proof.
  intros Hbefore Hf. induction before as [|b before IH].
  - cbn [app verify_input_files]. by rewrite Hf.
  - cbn [forallb] in Hbefore. apply andb_true_iff in Hbefore as [Hb Hbefore].
    cbn [app verify_input_files]. rewrite (filesystem_exists_found _ _ Hb).
    cbn [negb]. auto.
Qed.

(** X3: when the existence test answers true for the input files named
    first and false for the next one, without throwing, only that file is
    reported: the files named after it are not looked at, whether they
    exist or not and whether or not their test would throw. *)
Theorem first_missing_file_is_reported (w : World) (argv : list string)
    (vm : variables_map) (before : list string) (f : string) (after : list string) :
  command_line_parser w argv = inr vm ->
  help vm = false ->
  pe vm = Some (before ++ f :: after) ->
  forallb (fs_exists w) before = true ->
  filesystem_exists w f = Answer false ->
  main w argv =
  mk_run (-1) [Cout banner; Cerr ("[!] Error: " +:+ f +:+ " not found!" +:+ endl)].
Proof.
  intros Hc Hh Hp Hbefore Hf.
  assert (parse_args w argv =
          mk_run (false, vm) [Cerr ("[!] Error: " +:+ f +:+ " not found!" +:+ endl)])
    as Hparse.
  { unfold parse_args. rewrite Hc, Hh, Hp. cbn [count_flag nonzero count Nat.eqb negb orb].
    by rewrite (verify_input_files_first _ _ _ _ Hbefore Hf). }
  rewrite main_rejects; by rewrite Hparse.
Qed.

Lemma first_missing_file_is_reported_witness :
  let argv := ["sgstatic"; "a.exe"; "zz.exe"; "b.exe"; Limits.long_name] in
  let vm := mk_vm false (Some (["a.exe"] ++ "zz.exe" :: ["b.exe"; Limits.long_name]))
                  false None false None false false in
  command_line_parser Limits.world argv = inr vm /\
  forallb (fs_exists Limits.world) ["a.exe"] = true /\
  filesystem_exists Limits.world "zz.exe" = Answer false /\
  filesystem_exists Limits.world Limits.long_name = Throws /\
  main Limits.world argv =
  mk_run (-1) [Cout banner; Cerr ("[!] Error: " +:+ "zz.exe" +:+ " not found!" +:+ endl)].
Proof.
  cbv zeta. do 4 (split; [reflexivity|]).
  apply (first_missing_file_is_reported Limits.world
           ["sgstatic"; "a.exe"; "zz.exe"; "b.exe"; Limits.long_name]
           (mk_vm false (Some (["a.exe"] ++ "zz.exe" :: ["b.exe"; Limits.long_name]))
                  false None false None false false)
           ["a.exe"] "zz.exe" ["b.exe"; Limits.long_name]); reflexivity.
Defined.

(** X4: [parse_args] accepts exactly the command lines that the parser
    reads, that do not ask for help and whose input files all exist
    (directories included: only existence is tested); when it accepts, it
    has written nothing and hands over the map the parser produced. *)
Theorem parse_args_accepts_iff (w : World) (argv : list string) :
  (fst (value (parse_args w argv)) = true <->
   exists vm input_files,
     command_line_parser w argv = inr vm /\ help vm = false /\
     pe vm = Some input_files /\ forallb (fs_exists w) input_files = true) /\
  (forall vm, value (parse_args w argv) = (true, vm) ->
     command_line_parser w argv = inr vm /\ parse_args w argv = mk_run (true, vm) []).
Proof.
  split.
  - split.
    + destruct (value (parse_args w argv)) as [ok vm] eqn:Hp. cbn [fst]. intros ->.
      destruct (parse_args_true _ _ _ Hp) as (Hc & Hh & (l & Hl & Hall) & _).
      eauto 10.
    + intros (vm & l & Hc & Hh & Hl & Hall).
      by rewrite (parse_args_accepts _ _ _ _ Hc Hh Hl Hall).
  - intros vm Hp.
    destruct (parse_args_true _ _ _ Hp) as (Hc & Hh & (l & Hl & Hall) & _).
    split; [done|]. by apply (parse_args_accepts _ _ _ l).
Qed.

Lemma parse_args_accepts_iff_witness :
  fst (value (parse_args Sample.world ["sgstatic"; "samples"; "notes.txt"])) = true /\
  fs_is_directory Sample.world "samples" = true.
Proof.
  split; [|reflexivity].
  apply (proj2 (proj1 (parse_args_accepts_iff Sample.world
                         ["sgstatic"; "samples"; "notes.txt"]))).
  exists (mk_vm false (Some ["samples"; "notes.txt"]) false None false None false false),
    ["samples"; "notes.txt"].
  repeat split; reflexivity.
Defined.

(** ** What the iterations of the loop are made of *)

Lemma elem_of_report_pe (w : World) (vm : variables_map) (y_peid y_clamav : Yara)
    (p : PE) (more : bool) (e : event) :
  e ∈ trace (report_pe w vm y_peid y_clamav p more) ->
  (exists a, e = PeCall (get_path p) a) \/
  (exists text, e = Cout text) \/
  (e = ScanFile y_peid (get_path p) /\ peid vm = true) \/
  (e = ScanFile y_clamav (get_path p) /\ clamav vm = true).
Proof.
  rewrite trace_report_pe, !elem_of_app. intros [H|[H|[H|[H|[H|H]]]]].
  - left. unfold dump_stage in H. destruct (dump vm).
    + apply elem_of_handle_dump_option in H as (c & a & _ & -> & _). eauto.
    + apply list_elem_of_singleton in H as ->. eauto.
  - left. unfold extract_stage in H. destruct (extract vm); [|by apply elem_of_nil in H].
    apply list_elem_of_singleton in H as ->. eauto.
  - left. destruct (hashes vm); [|by apply elem_of_nil in H].
    apply list_elem_of_singleton in H as ->. eauto.
  - destruct (peid vm); [|by apply elem_of_nil in H].
    apply elem_of_signature_report in H as [->|H]; auto.
  - destruct (clamav vm); [|by apply elem_of_nil in H].
    apply elem_of_signature_report in H as [->|H]; auto.
  - destruct more; [|by apply elem_of_nil in H].
    apply list_elem_of_singleton in H as ->. eauto.
Qed.

Lemma elem_of_report_unparseable (w : World) (it : string) (valid : bool) (e : event) :
  e ∈ trace (report_unparseable w it (mk_pe it valid)) ->
  (exists text, e = Cerr text) \/
  ((e = LoadRules magic_rules (rules_load w magic_rules) \/
    (e = ScanFile (mk_yara (Some magic_rules)) it /\ rules_load w magic_rules = true)) /\
   fs_exists w it = true /\ fs_is_directory w it = false).
Proof.
  rewrite trace_report_unparseable, elem_of_cons, elem_of_app, list_elem_of_singleton.
  intros [->|[H| ->]]; [eauto| |eauto].
  unfold magic_report in H.
  destruct (fs_exists w it) eqn:Hex; [|by apply elem_of_nil in H].
  destruct (fs_is_directory w it) eqn:Hdir; [by apply elem_of_nil in H|].
  cbn [andb negb] in H.
  apply elem_of_cons in H as [->|H]; [by right; auto|].
  destruct (rules_load w magic_rules) eqn:Hload; [|by apply elem_of_nil in H].
  apply elem_of_cons in H as [->|H]; [by right; auto|].
  left. unfold listing in H.
  destruct (rules_scan w magic_rules it); [by apply elem_of_nil in H|].
  apply elem_of_cons in H as [->|H]; [eauto|].
  apply list_elem_of_fmap in H as (y & -> & _). eauto.
Qed.

Lemma elem_of_trace_analysis_loop (w : World) (vm : variables_map)
    (y_peid y_clamav : Yara) (targets : list string) (e : event) :
  e ∈ trace (analysis_loop w vm y_peid y_clamav targets) ->
  exists it more, it ∈ targets /\ e ∈ trace (analyze w vm y_peid y_clamav it more).
Proof.
  induction targets as [|it rest IH]; [by intros ?%elem_of_nil|].
  rewrite trace_analysis_loop_cons, elem_of_app. intros [H|H].
  - exists it, (more_after rest). split; [apply list_elem_of_here | done].
  - destruct (IH H) as (it' & more & Hin & He). exists it', more.
    split; [by apply list_elem_of_further | done].
Qed.

(** ** Every target is opened once, in order *)

Lemma opened_app (tr1 tr2 : list event) :
  opened (tr1 ++ tr2) = opened tr1 ++ opened tr2.
Proof. apply omap_app. Qed.

Lemma opened_none (tr : list event) :
  (forall e, e ∈ tr -> forall path, e <> PeOpen path) -> opened tr = [].
Proof.
  unfold opened. induction tr as [|e tr IH]; [done|]. intros H. cbn [omap list_omap].
  destruct e; try (apply IH; intros e' He'; apply H; by apply list_elem_of_further).
  exfalso. by apply (H (PeOpen path) (list_elem_of_here _ _) path).
Qed.

Lemma opened_analyze (w : World) (vm : variables_map) (y_peid y_clamav : Yara)
    (it : string) (more : bool) :
  opened (trace (analyze w vm y_peid y_clamav it more)) = [it].
Proof.
  rewrite trace_analyze. unfold opened. cbn [omap list_omap]. f_equal.
  apply opened_none. intros e He path ->. destruct (pe_parses w it).
  - apply elem_of_report_pe in He as [[a H]|[[text H]|[[H _]|[H _]]]]; done.
  - apply elem_of_report_unparseable in He as [[text H]|[[H|[H _]] _]]; done.
Qed.

Lemma opened_analysis_loop (w : World) (vm : variables_map) (y_peid y_clamav : Yara)
    (targets : list string) :
  opened (trace (analysis_loop w vm y_peid y_clamav targets)) = targets.
Proof.
  induction targets as [|it rest IH]; [done|].
  by rewrite trace_analysis_loop_cons, opened_app, IH, opened_analyze.
Qed.

(** X5: a run that gets to its loop opens every target as a PE exactly
    once, in the order of the target list, repeated targets included: a
    file that cannot be parsed does not stop or reorder the others. *)
Theorem targets_are_opened_in_order (w : World) (argv : list string)
    (vm : variables_map) :
  reaches_loop w argv vm ->
  opened (trace (main w argv)) = get_input_files w vm.
Proof.
  intros Hloop. rewrite (main_reaches_loop _ _ _ Hloop). cbn [trace].
  change (Cout banner :: ?l) with ([Cout banner] ++ l).
  rewrite !opened_app, opened_analysis_loop.
  unfold loading. by destruct (peid vm), (clamav vm).
Qed.

Lemma targets_are_opened_in_order_witness :
  let argv := ["sgstatic"; "a.exe"; "notes.txt"; "a.exe"; "--peid"] in
  let vm := mk_vm false (Some ["a.exe"; "notes.txt"; "a.exe"]) false None false None
                  true false in
  reaches_loop Sample.world argv vm /\
  opened (trace (main Sample.world argv)) = ["a.exe"; "notes.txt"; "a.exe"].
Proof.
  cbv zeta. split; [loop_reached|].
  apply (targets_are_opened_in_order Sample.world
           ["sgstatic"; "a.exe"; "notes.txt"; "a.exe"; "--peid"]
           (mk_vm false (Some ["a.exe"; "notes.txt"; "a.exe"]) false None false None
                  true false)).
  loop_reached.
Defined.

(** ** How often the rule bundles are loaded *)

Lemma rule_loads_app (rule_file : string) (tr1 tr2 : list event) :
  rule_loads rule_file (tr1 ++ tr2) =
  (rule_loads rule_file tr1 + rule_loads rule_file tr2)%nat.
Proof. unfold rule_loads. by rewrite List.filter_app, length_app. Qed.

Lemma rule_loads_none (rule_file : string) (tr : list event) :
  (forall e, e ∈ tr -> is_load rule_file e = false) -> rule_loads rule_file tr = 0%nat.
Proof.
  unfold rule_loads. induction tr as [|e tr IH]; [done|]. intros H.
  cbn [List.filter]. rewrite (H e) by apply list_elem_of_here.
  apply IH. intros e' He'. apply H. by apply list_elem_of_further.
Qed.

Lemma rule_loads_magic_report (w : World) (rule_file it : string) :
  rule_loads rule_file (magic_report w it) =
  if String.eqb magic_rules rule_file && (fs_exists w it && negb (fs_is_directory w it))
  then 1%nat else 0%nat.
Proof.
  unfold magic_report.
  destruct (fs_exists w it && negb (fs_is_directory w it)); [|by rewrite andb_false_r].
  rewrite andb_true_r.
  change (LoadRules magic_rules ?ok :: ?l) with ([LoadRules magic_rules ok] ++ l).
  rewrite rule_loads_app.
  assert (rule_loads rule_file
            (if rules_load w magic_rules
             then ScanFile (mk_yara (Some magic_rules)) it ::
                  listing Cerr "Detected file type(s):" "description"
                          (rules_scan w magic_rules it)
             else []) = 0%nat) as ->.
  { apply rule_loads_none. intros e He.
    destruct (rules_load w magic_rules); [|by apply elem_of_nil in He].
    apply elem_of_cons in He as [->|He]; [done|]. unfold listing in He.
    destruct (rules_scan w magic_rules it); [by apply elem_of_nil in He|].
    apply elem_of_cons in He as [->|He]; [done|].
    by apply list_elem_of_fmap in He as (y & -> & _). }
  unfold rule_loads. cbn [List.filter is_load].
  by destruct (String.eqb magic_rules rule_file).
Qed.

Lemma rule_loads_analyze (w : World) (vm : variables_map) (y_peid y_clamav : Yara)
    (rule_file it : string) (more : bool) :
  rule_loads rule_file (trace (analyze w vm y_peid y_clamav it more)) =
  if String.eqb magic_rules rule_file && needs_magic w it then 1%nat else 0%nat.
Proof.
  rewrite trace_analyze. unfold needs_magic.
  change (PeOpen it :: ?l) with ([PeOpen it] ++ l). rewrite rule_loads_app.
  destruct (pe_parses w it); cbn [negb andb].
  - rewrite andb_false_r. apply rule_loads_none. intros e He.
    by apply elem_of_report_pe in He as [[a ->]|[[text ->]|[[-> _]|[-> _]]]].
  - rewrite trace_report_unparseable.
    change (Cerr ?t :: ?l) with ([Cerr t] ++ l).
    by rewrite !rule_loads_app, rule_loads_magic_report, Nat.add_0_r.
Qed.

Lemma rule_loads_analysis_loop (w : World) (vm : variables_map)
    (y_peid y_clamav : Yara) (rule_file : string) (targets : list string) :
  rule_loads rule_file (trace (analysis_loop w vm y_peid y_clamav targets)) =
  if String.eqb magic_rules rule_file
  then length (List.filter (needs_magic w) targets) else 0%nat.
Proof.
  induction targets as [|it rest IH]; [by destruct (String.eqb _ _)|].
  rewrite trace_analysis_loop_cons, rule_loads_app, rule_loads_analyze, IH.
  cbn [List.filter].
  by destruct (String.eqb magic_rules rule_file), (needs_magic w it).
Qed.

(** X6: in a run that gets to its loop, resources/peid.yara and
    resources/clamav.yara are each loaded once when their option is given
    and never otherwise, however many targets there are, while
    resources/magic.yara is loaded anew for every target that fails to
    parse, exists and is not a directory. *)
Theorem rule_bundles_loaded (w : World) (argv : list string) (vm : variables_map) :
  reaches_loop w argv vm ->
  let tr := trace (main w argv) in
  rule_loads peid_rules tr = (if peid vm then 1%nat else 0%nat) /\
  rule_loads clamav_rules tr = (if clamav vm then 1%nat else 0%nat) /\
  rule_loads magic_rules tr =
    length (List.filter (needs_magic w) (get_input_files w vm)).
Proof.
  intros Hloop. cbv zeta. rewrite (main_reaches_loop _ _ _ Hloop). cbn [trace].
  change (Cout banner :: ?l) with ([Cout banner] ++ l).
  rewrite !rule_loads_app, !rule_loads_analysis_loop. unfold loading.
  by destruct (peid vm), (clamav vm).
Qed.

Lemma rule_bundles_loaded_witness :
  let argv := ["sgstatic"; "notes.txt"; "a.exe"; "samples"; "notes.txt"; "--peid"] in
  let vm := mk_vm false (Some ["notes.txt"; "a.exe"; "samples"; "notes.txt"]) false None
                  false None true false in
  reaches_loop Sample.world argv vm /\
  rule_loads peid_rules (trace (main Sample.world argv)) = 1%nat /\
  rule_loads clamav_rules (trace (main Sample.world argv)) = 0%nat /\
  rule_loads magic_rules (trace (main Sample.world argv)) = 2%nat.
Proof.
  cbv zeta. split; [loop_reached|].
  apply (rule_bundles_loaded Sample.world
           ["sgstatic"; "notes.txt"; "a.exe"; "samples"; "notes.txt"; "--peid"]
           (mk_vm false (Some ["notes.txt"; "a.exe"; "samples"; "notes.txt"]) false None
                  false None true false)).
  loop_reached.
Defined.

(** ** Stream statements and engines *)

(** X7: in the iteration for a target that fails to parse, main.cpp
    executes none of its [std::cout] statements and calls no accessor of
    the PE model; in the iteration for a parsed PE, it executes none of
    its [std::cerr] statements and calls [load_rules] on no engine. *)
Theorem statements_of_an_iteration (w : World) (vm : variables_map)
    (y_peid y_clamav : Yara) (it : string) (more : bool) (e : event) :
  e ∈ trace (analyze w vm y_peid y_clamav it more) ->
  if pe_parses w it
  then cerr_statement e = false /\ (forall f ok, e <> LoadRules f ok)
  else cout_statement e = false /\ (forall p a, e <> PeCall p a).
Proof.
  rewrite trace_analyze, elem_of_cons. intros [->|He].
  - by destruct (pe_parses w it).
  - destruct (pe_parses w it).
    + by apply elem_of_report_pe in He as [[a ->]|[[text ->]|[[-> _]|[-> _]]]].
    + by apply elem_of_report_unparseable in He as [[text ->]|[[->|[-> _]] _]].
Qed.

Lemma statements_of_an_iteration_witness :
  let tr := trace (analyze Sample.world empty_vm new_yara new_yara "notes.txt" true) in
  Cerr endl ∈ tr /\ pe_parses Sample.world "notes.txt" = false /\
  cout_statement (Cerr endl) = false.
Proof.
  cbv zeta.
  assert (Cerr endl ∈ trace (analyze Sample.world empty_vm new_yara new_yara
                                     "notes.txt" true)) as Hin.
  { apply list_elem_of_In. vm_compute. auto 10. }
  split; [exact Hin|]. split; [reflexivity|].
  exact (proj1 (statements_of_an_iteration Sample.world empty_vm new_yara new_yara
                  "notes.txt" true (Cerr endl) Hin)).
Defined.

Lemma elem_of_main_loop (w : World) (argv : list string) (vm : variables_map)
    (e : event) :
  reaches_loop w argv vm ->
  e ∈ trace (main w argv) <->
  e = Cout banner \/ e ∈ loading w (peid vm) peid_rules \/
  e ∈ loading w (clamav vm) clamav_rules \/
  e ∈ trace (analysis_loop w vm (engine (peid vm) peid_rules)
                           (engine (clamav vm) clamav_rules) (get_input_files w vm)).
Proof.
  intros Hloop. rewrite (main_reaches_loop _ _ _ Hloop). cbn [trace].
  by rewrite elem_of_cons, !elem_of_app.
Qed.

Lemma elem_of_loading (w : World) (given : bool) (rule_file : string) (e : event) :
  e ∈ loading w given rule_file -> e = LoadRules rule_file (rules_load w rule_file).
Proof.
  unfold loading. destruct given; [|by intros ?%elem_of_nil].
  by intros ->%list_elem_of_singleton.
Qed.

(** X8: in a run that gets to its loop, every scan is made on one of the
    targets and with an engine that holds a rule file whose load
    succeeded: the driver never scans with an engine that is empty or
    whose load failed. *)
Theorem scans_use_loaded_engines (w : World) (argv : list string)
    (vm : variables_map) (y : Yara) (target : string) :
  reaches_loop w argv vm ->
  ScanFile y target ∈ trace (main w argv) ->
  exists rule_file,
    loaded y = Some rule_file /\ rules_load w rule_file = true /\
    target ∈ get_input_files w vm.
Proof.
  intros Hloop Hin. pose proof Hloop as (_ & Hpeid & Hclamav).
  apply (elem_of_main_loop _ _ _ _ Hloop) in Hin as [H|[H|[H|H]]]; [done| | |].
  - by apply elem_of_loading in H.
  - by apply elem_of_loading in H.
  - apply elem_of_trace_analysis_loop in H as (it & more & Hit & H).
    rewrite trace_analyze in H. apply elem_of_cons in H as [H|H]; [done|].
    destruct (pe_parses w it).
    + apply elem_of_report_pe in H as [[a H]|[[text H]|[[H Hg]|[H Hg]]]];
        [done|done| |]; injection H as -> ->; rewrite Hg; cbn [engine loaded get_path].
      * exists peid_rules. auto.
      * exists clamav_rules. auto.
    + apply elem_of_report_unparseable in H as [[text H]|[[H|[H Hload]] _]];
        [done|done|]. injection H as -> ->. exists magic_rules. auto.
Qed.

Lemma scans_use_loaded_engines_witness :
  let argv := ["sgstatic"; "notes.txt"; "a.exe"; "--clamav"] in
  let vm := mk_vm false (Some ["notes.txt"; "a.exe"]) false None false None false true in
  reaches_loop Sample.world argv vm /\
  ScanFile (mk_yara (Some clamav_rules)) "a.exe" ∈ trace (main Sample.world argv) /\
  exists rule_file,
    Some clamav_rules = Some rule_file /\ rules_load Sample.world rule_file = true /\
    "a.exe" ∈ ["notes.txt"; "a.exe"].
Proof.
  cbv zeta.
  assert (ScanFile (mk_yara (Some clamav_rules)) "a.exe" ∈
          trace (main Sample.world ["sgstatic"; "notes.txt"; "a.exe"; "--clamav"]))
    as Hin.
  { apply list_elem_of_In. vm_compute. auto 20. }
  split; [loop_reached|]. split; [exact Hin|].
  apply (scans_use_loaded_engines Sample.world
           ["sgstatic"; "notes.txt"; "a.exe"; "--clamav"]
           (mk_vm false (Some ["notes.txt"; "a.exe"]) false None false None false true)
           (mk_yara (Some clamav_rules)) "a.exe" ltac:(loop_reached) Hin).
Defined.

(** X9: in a run that gets to its loop, main.cpp executes none of its own
    [std::cerr] statements exactly when every target parses as a PE. *)
Theorem cerr_statements_iff_unparseable (w : World) (argv : list string)
    (vm : variables_map) :
  reaches_loop w argv vm ->
  (forall it, it ∈ get_input_files w vm -> pe_parses w it = true) <->
  (forall e, e ∈ trace (main w argv) -> cerr_statement e = false).
Proof.
  intros Hloop. split.
  - intros Hall e He.
    apply (elem_of_main_loop _ _ _ _ Hloop) in He as [->|[H|[H|H]]]; [done| | |].
    + by apply elem_of_loading in H as ->.
    + by apply elem_of_loading in H as ->.
    + apply elem_of_trace_analysis_loop in H as (it & more & Hit & H).
      rewrite trace_analyze, (Hall it Hit) in H.
      apply elem_of_cons in H as [->|H]; [done|].
      by apply elem_of_report_pe in H as [[a ->]|[[text ->]|[[-> _]|[-> _]]]].
  - intros Hsilent it Hit. destruct (pe_parses w it) eqn:Hpe; [done|].
    apply list_elem_of_split in Hit as (before & after & Htargets).
    destruct (main_at_target _ _ _ _ _ _ Hloop Htargets) as (_ & earlier & Htrace).
    rewrite trace_analyze, Hpe, trace_report_unparseable in Htrace.
    assert (cerr_statement (Cerr ("[!] Error: Could not parse " +:+ it +:+ "!" +:+ endl))
            = false) as Habs; [|done].
    apply Hsilent. rewrite Htrace, !elem_of_app.
    right. left. apply elem_of_cons. right. apply list_elem_of_here.
Qed.

Lemma cerr_statements_iff_unparseable_witness :
  let argv := ["sgstatic"; "a.exe"; "b.exe"; "--peid"] in
  let vm := mk_vm false (Some ["a.exe"; "b.exe"]) false None false None true false in
  reaches_loop Sample.world argv vm /\
  forall e, e ∈ trace (main Sample.world argv) -> cerr_statement e = false.
Proof.
  cbv zeta. split; [loop_reached|].
  apply (proj1 (cerr_statements_iff_unparseable Sample.world
                  ["sgstatic"; "a.exe"; "b.exe"; "--peid"]
                  (mk_vm false (Some ["a.exe"; "b.exe"]) false None false None true false)
                  ltac:(loop_reached))).
  intros it Hit. apply list_elem_of_In in Hit. cbn in Hit.
  destruct Hit as [<-|[<-|[]]]; reflexivity.
Defined.

(** ** More on handle_dump_option *)

Lemma sublist_flat_map_if {A B} (keep : A -> bool) (g : A -> B) (l : list A) :
  sublist (flat_map (fun x => if keep x then [g x] else []) l) (map g l).
Proof.
  induction l as [|x l IH]; [constructor|]. cbn [flat_map map].
  destruct (keep x); cbn [app]; by constructor.
Qed.

(** X10: whatever the categories and the order in which they are given,
    the dump accessors are called in one fixed order (that of the tests in
    the code, with relocations before tls and certificates), each at most
    once. *)
Theorem dump_calls_in_fixed_order (categories : list string) (compute_hashes : bool)
    (p : PE) :
  sublist (trace (handle_dump_option categories compute_hashes p))
          (map (PeCall (get_path p))
               [dump_dos_header; dump_pe_header; dump_image_optional_header;
                dump_section_table; dump_imports; dump_exports;
                dump_resources compute_hashes; dump_version_info; dump_debug_info;
                dump_relocations; dump_tls; dump_certificates]) /\
  NoDup (trace (handle_dump_option categories compute_hashes p)).
Proof.
  assert (sublist (trace (handle_dump_option categories compute_hashes p))
            (map (PeCall (get_path p))
               [dump_dos_header; dump_pe_header; dump_image_optional_header;
                dump_section_table; dump_imports; dump_exports;
                dump_resources compute_hashes; dump_version_info; dump_debug_info;
                dump_relocations; dump_tls; dump_certificates])) as Hsub.
  { rewrite trace_handle_dump_option.
    apply (sublist_flat_map_if (fun entry => requested categories (fst entry))
             (fun entry => PeCall (get_path p) (snd entry))
             (dump_table compute_hashes)). }
  split; [exact Hsub|]. eapply sublist_NoDup; [|exact Hsub]. cbn [map].
  repeat (apply NoDup_cons; split; [intros H; not_listed H|]).
  constructor.
Qed.

Example dump_order_sample :
  trace (handle_dump_option ["certificates"; "tls"; "relocations"; "tls"] false
                            (mk_pe "a.exe" true)) =
  [PeCall "a.exe" dump_relocations; PeCall "a.exe" dump_tls;
   PeCall "a.exe" dump_certificates].
Proof. reflexivity. Qed.

Lemma found_same_members (l l' : list string) (x : string) :
  (forall c, c ∈ l <-> c ∈ l') -> found l x = found l' x.
Proof. intros H. apply eq_true_iff_eq. by rewrite !found_In. Qed.

(** X11: only the set of categories matters: two lists with the same
    members, in any order and with any repetition, give the same dump. *)
Theorem dump_ignores_order_and_repetition (categories categories' : list string)
    (compute_hashes : bool) (p : PE) :
  (forall c, c ∈ categories <-> c ∈ categories') ->
  handle_dump_option categories compute_hashes p =
  handle_dump_option categories' compute_hashes p.
Proof.
  intros Hsame. unfold handle_dump_option.
  by rewrite !(found_same_members categories categories' _ Hsame).
Qed.

Lemma dump_ignores_order_and_repetition_witness :
  (forall c, c ∈ ["tls"; "dos"; "tls"] <-> c ∈ ["dos"; "tls"]) /\
  handle_dump_option ["tls"; "dos"; "tls"] true (mk_pe "a.exe" true) =
  handle_dump_option ["dos"; "tls"] true (mk_pe "a.exe" true).
Proof.
  assert (forall c, c ∈ ["tls"; "dos"; "tls"] <-> c ∈ ["dos"; "tls"]) as Hsame.
  { intros c. rewrite !list_elem_of_In. cbn [In]. tauto. }
  split; [exact Hsame|].
  apply (dump_ignores_order_and_repetition _ _ true (mk_pe "a.exe" true) Hsame).
Defined.

(** ** The categories of --dump *)

Lemma occurs_append (sep : ascii) (s1 s2 : string) :
  occurs sep (s1 +:+ s2) = occurs sep s1 || occurs sep s2.
Proof.
  induction s1 as [|c s1 IH]; [done|].
  change (String c s1 +:+ s2) with (String c (s1 +:+ s2)).
  cbn [occurs]. by rewrite IH, orb_assoc.
Qed.

Lemma flush_plain (sep : ascii) (cur : string) :
  occurs sep cur = false -> Forall (plain_token sep) (flush cur).
Proof.
  intros Hcur. destruct cur as [|c cur]; [constructor|].
  cbn [flush]. by repeat constructor.
Qed.

Lemma tokenizer_from_tokens (sep : ascii) (s cur : string) :
  occurs sep cur = false -> Forall (plain_token sep) (tokenizer_from sep cur s).
Proof.
  revert cur. induction s as [|c s IH]; intros cur Hcur; cbn [tokenizer_from].
  - by apply flush_plain.
  - destruct (Ascii.eqb c sep) eqn:Hc.
    + apply Forall_app. split; [by apply flush_plain | by apply IH].
    + apply IH. rewrite occurs_append, Hcur. cbn [occurs orb]. by rewrite Hc.
Qed.

(** X12: every category handed to [handle_dump_option] is a non-empty
    string without a comma: empty arguments and repeated, leading or
    trailing commas yield no category. *)
Theorem categories_are_plain (dump_args : list string) :
  Forall (plain_token ","%char) (split_categories dump_args).
Proof.
  rewrite split_categories_spec. induction dump_args as [|it rest IH]; [constructor|].
  cbn [flat_map]. apply Forall_app. split; [|done].
  by apply tokenizer_from_tokens.
Qed.

Example categories_sample :
  split_categories [",dos,,pe,"; EmptyString; ","; "tls"] = ["dos"; "pe"; "tls"].
Proof. reflexivity. Qed.

Lemma tokenizer_join (sep : ascii) (tokens : list string) :
  Forall (plain_token sep) tokens -> tokenizer (join sep tokens) sep = tokens.
Proof.
  induction tokens as [|t rest IH]; [done|].
  intros Hall. apply Forall_cons in Hall as [[Hne Hsep] Hrest].
  assert (flush t = [t]) as Hflush by (by destruct t).
  destruct rest as [|t' rest].
  - cbn [join]. by rewrite tokenizer_plain.
  - change (join sep (t :: t' :: rest)) with (t +:+ String sep (join sep (t' :: rest))).
    by rewrite tokenizer_separator, tokenizer_plain, Hflush, IH.
Qed.

(** X13: writing categories in one argument with commas in between, or
    each in an argument of its own, gives back exactly these categories,
    in order. *)
Theorem categories_round_trip (categories : list string) :
  Forall (plain_token ","%char) categories ->
  split_categories [join ","%char categories] = categories /\
  split_categories categories = categories.
Proof.
  intros Hall. rewrite !split_categories_spec. split.
  - cbn [flat_map]. by rewrite app_nil_r, tokenizer_join.
  - induction categories as [|c rest IH]; [done|].
    apply Forall_cons in Hall as [[Hne Hsep] Hrest].
    cbn [flat_map]. rewrite tokenizer_plain, IH by done. by destruct c.
Qed.

Lemma categories_round_trip_witness :
  Forall (plain_token ","%char) ["imports"; "exports"; "debug"] /\
  join ","%char ["imports"; "exports"; "debug"] = "imports,exports,debug" /\
  split_categories ["imports,exports,debug"] = ["imports"; "exports"; "debug"].
Proof.
  assert (Forall (plain_token ","%char) ["imports"; "exports"; "debug"]) as Hall.
  { repeat constructor; discriminate. }
  split; [exact Hall|]. split; [reflexivity|].
  exact (proj1 (categories_round_trip ["imports"; "exports"; "debug"] Hall)).
Defined.

(** ** More on get_input_files *)

(** X14: with [--recursive] no target is a directory. *)
Theorem recursive_targets_are_not_directories (w : World) (vm : variables_map)
    (t : string) :
  recursive vm = true ->
  t ∈ get_input_files w vm ->
  fs_is_directory w t = false.
Proof.
  intros Hr. unfold get_input_files. rewrite Hr. cbn [nonzero count_flag Nat.eqb negb].
  rewrite input_loop_spec. cbn [app].
  rewrite list_elem_of_In, in_flat_map.
  intros (it & _ & Ht%list_elem_of_In).
  by apply elem_of_targets_of_input in Ht as [[-> Hd] | (_ & _ & Hd)].
Qed.

Lemma recursive_targets_are_not_directories_witness :
  let vm := mk_vm false (Some ["samples"; "a.exe"]) true None false None false false in
  recursive vm = true /\
  "samples/readme.txt" ∈ get_input_files Sample.world vm /\
  fs_is_directory Sample.world "samples/readme.txt" = false.
Proof.
  cbv zeta. split; [reflexivity|].
  assert ("samples/readme.txt" ∈ get_input_files Sample.world
            (mk_vm false (Some ["samples"; "a.exe"]) true None false None false false))
    as Hin by (apply list_elem_of_In; cbn; auto).
  split; [exact Hin|].
  exact (recursive_targets_are_not_directories Sample.world
           (mk_vm false (Some ["samples"; "a.exe"]) true None false None false false)
           "samples/readme.txt" eq_refl Hin).
Defined.

(** X15: when none of the inputs is a directory, the targets are the
    inputs as given, with or without [--recursive]. *)
Theorem plain_inputs_are_the_targets (w : World) (vm : variables_map) :
  (forall it, it ∈ as_strings (pe vm) -> fs_is_directory w it = false) ->
  get_input_files w vm = as_strings (pe vm).
Proof.
  intros Hplain. unfold get_input_files.
  destruct (nonzero (count_flag (recursive vm))); [|done].
  rewrite input_loop_spec. cbn [app].
  induction (as_strings (pe vm)) as [|it rest IH]; [done|].
  cbn [flat_map]. unfold targets_of_input at 1.
  rewrite (Hplain it) by apply list_elem_of_here. cbn [app]. f_equal.
  apply IH. intros it' Hit'. apply Hplain. by apply list_elem_of_further.
Qed.

Lemma plain_inputs_are_the_targets_witness :
  let vm := mk_vm false (Some ["b.exe"; "notes.txt"; "b.exe"]) true None false None
                  false false in
  (forall it, it ∈ as_strings (pe vm) -> fs_is_directory Sample.world it = false) /\
  get_input_files Sample.world vm = ["b.exe"; "notes.txt"; "b.exe"].
Proof.
  cbv zeta.
  assert (forall it,
            it ∈ as_strings (Some ["b.exe"; "notes.txt"; "b.exe"]) ->
            fs_is_directory Sample.world it = false) as Hplain.
  { intros it Hit. apply list_elem_of_In in Hit. cbn in Hit.
    destruct Hit as [<-|[<-|[<-|[]]]]; reflexivity. }
  split; [exact Hplain|].
  exact (plain_inputs_are_the_targets Sample.world
           (mk_vm false (Some ["b.exe"; "notes.txt"; "b.exe"]) true None false None
                  false false) Hplain).
Defined.




(** X17: in an accepted run without [--recursive] every target exists, so
    that an unparseable target gets the file-type detection exactly when
    it is not a directory. *)
Theorem given_targets_exist (w : World) (argv : list string) (vm : variables_map)
    (it : string) :
  reaches_loop w argv vm ->
  recursive vm = false ->
  it ∈ get_input_files w vm ->
  fs_exists w it = true /\
  needs_magic w it = negb (pe_parses w it) && negb (fs_is_directory w it).
Proof.
  intros (Hok & _) Hr Hit.
  destruct (parse_args_true _ _ _ Hok) as (_ & _ & (l & Hl & Hall) & _).
  unfold get_input_files in Hit. rewrite Hr, Hl in Hit. cbn in Hit.
  assert (fs_exists w it = true) as Hex.
  { rewrite forallb_forall in Hall. by apply Hall, list_elem_of_In. }
  split; [done|]. unfold needs_magic. by rewrite Hex.
Qed.

Lemma given_targets_exist_witness :
  let argv := ["sgstatic"; "samples"; "notes.txt"] in
  let vm := mk_vm false (Some ["samples"; "notes.txt"]) false None false None false false in
  reaches_loop Sample.world argv vm /\
  "samples" ∈ get_input_files Sample.world vm /\
  fs_exists Sample.world "samples" = true /\
  needs_magic Sample.world "samples" = false.
Proof.
  cbv zeta. split; [loop_reached|].
  assert ("samples" ∈ get_input_files Sample.world
            (mk_vm false (Some ["samples"; "notes.txt"]) false None false None false false))
    as Hin by (apply list_elem_of_In; cbn; auto).
  split; [exact Hin|].
  destruct (given_targets_exist Sample.world ["sgstatic"; "samples"; "notes.txt"]
              (mk_vm false (Some ["samples"; "notes.txt"]) false None false None
                     false false)
              "samples" ltac:(loop_reached) eq_refl Hin) as [Hex Hmagic].
  split; [exact Hex | exact Hmagic].
Defined.

(** ** The options of one iteration *)

Lemma dump_table_resources (compute_hashes h : bool) (c : string) :
  (c, dump_resources h) ∈ dump_table compute_hashes -> h = compute_hashes.
Proof.
  intros H. unfold dump_table in H.
  repeat (apply elem_of_cons in H as [H|H]; [by injection H|]).
  by apply elem_of_nil in H.
Qed.

(** X18: on the iteration for a parsed PE, the resources are extracted
    exactly when [--extract] is given, to the directory given; the hashes
    are dumped exactly when [--hashes] is given; and when the resources
    are dumped, it is with hashes exactly when [--hashes] is given. *)
Theorem options_of_an_iteration (w : World) (vm : variables_map)
    (y_peid y_clamav : Yara) (it : string) (more : bool) :
  pe_parses w it = true ->
  let tr := trace (analyze w vm y_peid y_clamav it more) in
  (forall destination,
     PeCall it (extract_resources destination) ∈ tr <-> extract vm = Some destination) /\
  (PeCall it dump_hashes ∈ tr <-> hashes vm = true) /\
  (forall h, PeCall it (dump_resources h) ∈ tr -> h = hashes vm).
Proof.
  intros Hpe. cbv zeta. rewrite trace_analyze, Hpe, trace_report_pe. cbn [get_path].
  assert (forall a, PeCall it a ∈ dump_stage vm (mk_pe it true) ->
                    a = dump_summary \/ exists c, (c, a) ∈ dump_table (hashes vm))
    as Hdump.
  { intros a. unfold dump_stage. destruct (dump vm).
    - intros (c & a' & Hin & H & _)%elem_of_handle_dump_option.
      injection H as ->. eauto.
    - intros H%list_elem_of_singleton. injection H as ->. auto. }
  assert (forall a,
            PeCall it a ∈
              (if peid vm
               then signature_report w y_peid "PEiD Signature:" "packer_name" it
               else []) ++
              (if clamav vm
               then signature_report w y_clamav "ClamAV Signature:" "signature" it
               else []) ++
              (if more then [Cout separator] else []) -> False) as Hlate.
  { intros a. rewrite !elem_of_app. intros [H|[H|H]].
    - destruct (peid vm); [|by apply elem_of_nil in H].
      by apply elem_of_signature_report in H as [H|[text H]].
    - destruct (clamav vm); [|by apply elem_of_nil in H].
      by apply elem_of_signature_report in H as [H|[text H]].
    - destruct more; [|by apply elem_of_nil in H].
      by apply list_elem_of_singleton in H. }
  split; [|split].
  - intros destination. rewrite elem_of_cons, !elem_of_app. split.
    + intros [H|[H|[H|[H|H]]]]; [done| | | |].
      * apply Hdump in H as [H|[c H]]; [done|]. by apply dump_table_accessors in H.
      * unfold extract_stage in H. destruct (extract vm); [|by apply elem_of_nil in H].
        apply list_elem_of_singleton in H. by injection H as ->.
      * destruct (hashes vm); [|by apply elem_of_nil in H].
        by apply list_elem_of_singleton in H.
      * exfalso. eapply Hlate. rewrite !elem_of_app. exact H.
    + intros Hx. right. right. left. unfold extract_stage. rewrite Hx.
      by apply list_elem_of_singleton.
  - rewrite elem_of_cons, !elem_of_app. split.
    + intros [H|[H|[H|[H|H]]]]; [done| | | |].
      * apply Hdump in H as [H|[c H]]; [done|]. by apply dump_table_accessors in H.
      * unfold extract_stage in H. destruct (extract vm); [|by apply elem_of_nil in H].
        by apply list_elem_of_singleton in H.
      * destruct (hashes vm); [done | by apply elem_of_nil in H].
      * exfalso. eapply Hlate. rewrite !elem_of_app. exact H.
    + intros Hx. right. right. right. left. rewrite Hx.
      by apply list_elem_of_singleton.
  - intros h. rewrite elem_of_cons, !elem_of_app.
    intros [H|[H|[H|[H|H]]]]; [done| | | |].
    + apply Hdump in H as [H|[c H]]; [done|]. by apply dump_table_resources in H.
    + unfold extract_stage in H. destruct (extract vm); [|by apply elem_of_nil in H].
      by apply list_elem_of_singleton in H.
    + destruct (hashes vm); [|by apply elem_of_nil in H].
      by apply list_elem_of_singleton in H.
    + exfalso. eapply Hlate. rewrite !elem_of_app. exact H.
Qed.

Lemma options_of_an_iteration_witness :
  let vm := mk_vm false (Some ["a.exe"]) false (Some ["resources"]) true (Some "out")
                  false false in
  let tr := trace (analyze Sample.world vm new_yara new_yara "a.exe" false) in
  pe_parses Sample.world "a.exe" = true /\
  PeCall "a.exe" (extract_resources "out") ∈ tr /\
  PeCall "a.exe" dump_hashes ∈ tr /\
  tr = [PeOpen "a.exe"; PeCall "a.exe" (dump_resources true);
        PeCall "a.exe" (extract_resources "out"); PeCall "a.exe" dump_hashes].
Proof.
  cbv zeta. split; [reflexivity|].
  destruct (options_of_an_iteration Sample.world
              (mk_vm false (Some ["a.exe"]) false (Some ["resources"]) true (Some "out")
                     false false)
              new_yara new_yara "a.exe" false eq_refl) as (Hextract & Hhashes & _).
  split; [by apply Hextract|]. split; [by apply Hhashes | reflexivity].
Defined.

(** ** How the loop composes *)

Lemma trace_analyze_more (w : World) (vm : variables_map) (y_peid y_clamav : Yara)
    (it : string) :
  trace (analyze w vm y_peid y_clamav it true) =
  trace (analyze w vm y_peid y_clamav it false) ++
  (if pe_parses w it then [Cout separator] else []).
Proof.
  rewrite !trace_analyze. destruct (pe_parses w it).
  - rewrite !trace_report_pe, !app_nil_r, <- !app_comm_cons.
    by rewrite <- !app_assoc.
  - by rewrite app_nil_r.
Qed.

(** X19: analysing a list of targets followed by further targets is
    analysing the first list on its own, then writing a separator if its
    last target parsed, then analysing the further targets on their
    own. *)
Theorem analysis_loop_app (w : World) (vm : variables_map) (y_peid y_clamav : Yara)
    (before : list string) (it : string) (after : list string) :
  after <> [] ->
  trace (analysis_loop w vm y_peid y_clamav (before ++ it :: after)) =
  trace (analysis_loop w vm y_peid y_clamav (before ++ [it])) ++
  (if pe_parses w it then [Cout separator] else []) ++
  trace (analysis_loop w vm y_peid y_clamav after).
Proof.
  intros Hafter. induction before as [|b before IH].
  - cbn [app]. rewrite !trace_analysis_loop_cons.
    destruct after as [|a after]; [done|]. cbn [more_after analysis_loop].
    rewrite trace_analyze_more. cbn [trace mret run_ret].
    by rewrite app_nil_r, <- !app_assoc.
  - rewrite <- !app_comm_cons, !trace_analysis_loop_cons, IH.
    assert (more_after (before ++ it :: after) = more_after (before ++ [it])) as ->
      by (by destruct before).
    by rewrite <- !app_assoc.
Qed.

Lemma analysis_loop_app_witness :
  ["b.exe"] <> [] /\
  trace (analysis_loop Sample.world empty_vm new_yara new_yara
                       (["notes.txt"] ++ "a.exe" :: ["b.exe"])) =
  trace (analysis_loop Sample.world empty_vm new_yara new_yara
                       (["notes.txt"] ++ ["a.exe"])) ++
  [Cout separator] ++
  trace (analysis_loop Sample.world empty_vm new_yara new_yara ["b.exe"]).
Proof.
  split; [discriminate|].
  apply (analysis_loop_app Sample.world empty_vm new_yara new_yara
           ["notes.txt"] "a.exe" ["b.exe"]).
  discriminate.
Defined.

(** X20: for a target that fails to parse, the options and the engines
    play no part: the iteration is the same whatever is asked for, and
    whether or not the target is the last one. *)
Theorem options_do_not_reach_unparseable_targets (w : World)
    (vm vm' : variables_map) (y_peid y_clamav y_peid' y_clamav' : Yara)
    (it : string) (more more' : bool) :
  pe_parses w it = false ->
  analyze w vm y_peid y_clamav it more = analyze w vm' y_peid' y_clamav' it more'.
Proof.
  intros Hpe. rewrite !analyze_cases. by rewrite Hpe.
Qed.

Lemma options_do_not_reach_unparseable_targets_witness :
  pe_parses Sample.world "notes.txt" = false /\
  analyze Sample.world
          (mk_vm false (Some ["notes.txt"]) false (Some ["all"]) true (Some "out")
                 true true)
          (mk_yara (Some peid_rules)) (mk_yara (Some clamav_rules)) "notes.txt" true =
  analyze Sample.world empty_vm new_yara new_yara "notes.txt" false.
Proof.
  split; [reflexivity|].
  apply (options_do_not_reach_unparseable_targets Sample.world). reflexivity.
Defined.

(** ** The order of the loads *)

(** X21: the PEiD bundle is loaded before the ClamAV bundle, and a failed
    load ends the run at once: when [--peid] is given and its bundle does
    not load, resources/clamav.yara is not even tried, whether or not
    [--clamav] is given. *)
Theorem peid_failure_skips_clamav (w : World) (argv : list string)
    (vm : variables_map) :
  value (parse_args w argv) = (true, vm) ->
  peid vm = true ->
  rules_load w peid_rules = false ->
  main w argv =
  mk_run 1 [Cout banner; LoadRules peid_rules false;
            Cerr ("[!] Error: Could not load PEiD signatures!" +:+ endl)] /\
  rule_loads clamav_rules (trace (main w argv)) = 0%nat.
Proof.
  intros Hok Hpeid Hload. rewrite (main_accepts _ _ _ Hok), Hpeid, Hload.
  by cbn [andb negb].
Qed.

Lemma peid_failure_skips_clamav_witness :
  let argv := ["sgstatic"; "a.exe"; "--clamav"; "--peid"] in
  let vm := mk_vm false (Some ["a.exe"]) false None false None true true in
  value (parse_args Sample.world_without_peid argv) = (true, vm) /\
  rules_load Sample.world_without_peid peid_rules = false /\
  main Sample.world_without_peid argv =
  mk_run 1 [Cout banner; LoadRules peid_rules false;
            Cerr ("[!] Error: Could not load PEiD signatures!" +:+ endl)].
Proof.
  cbv zeta. do 2 (split; [reflexivity|]).
  apply (peid_failure_skips_clamav Sample.world_without_peid
           ["sgstatic"; "a.exe"; "--clamav"; "--peid"]
           (mk_vm false (Some ["a.exe"]) false None false None true true));
    reflexivity.
Defined.

(** ** An existence test that throws *)

Lemma verify_input_files_throws (w : World) (before : list string) (f : string)
    (after : list string) :
  forallb (fs_exists w) before = true -> filesystem_exists w f = Throws ->
  verify_input_files w (before ++ f :: after) = mk_run Uncaught [].
Proof.
  intros Hbefore Hf. induction before as [|b before IH].
  - cbn [app verify_input_files]. by rewrite Hf.
  - cbn [forallb] in Hbefore. apply andb_true_iff in Hbefore as [Hb Hbefore].
    cbn [app verify_input_files]. rewrite (filesystem_exists_found _ _ Hb).
    cbn [negb]. auto.
Qed.

(** X22: when the existence test throws on an input file, the files named
    before it existing, nothing catches the exception: the run ends after
    the banner, main returns no code, no "not found" line is written, no
    bundle is loaded and no file is analysed. *)
Theorem existence_error_terminates_the_run (w : World) (argv : list string)
    (vm : variables_map) (before : list string) (f : string) (after : list string) :
  command_line_parser w argv = inr vm ->
  help vm = false ->
  pe vm = Some (before ++ f :: after) ->
  forallb (fs_exists w) before = true ->
  filesystem_exists w f = Throws ->
  main w argv = mk_run Terminated [Cout banner].
Proof.
  intros Hc Hh Hp Hbefore Hf.
  assert (parse_args w argv = mk_run (Uncaught, vm) []) as Hparse.
  { unfold parse_args. rewrite Hc, Hh, Hp. cbn [count_flag nonzero count Nat.eqb negb orb].
    by rewrite (verify_input_files_throws _ _ _ _ Hbefore Hf). }
  rewrite main_uncaught; by rewrite Hparse.
Qed.

Lemma existence_error_terminates_the_run_witness :
  let argv := ["sgstatic"; "a.exe"; Limits.long_name; "zz.exe"; "--peid"] in
  let vm := mk_vm false (Some (["a.exe"] ++ Limits.long_name :: ["zz.exe"])) false None
                  false None true false in
  command_line_parser Limits.world argv = inr vm /\
  forallb (fs_exists Limits.world) ["a.exe"] = true /\
  filesystem_exists Limits.world Limits.long_name = Throws /\
  main Limits.world argv = mk_run Terminated [Cout banner].
Proof.
  cbv zeta. do 3 (split; [reflexivity|]).
  apply (existence_error_terminates_the_run Limits.world
           ["sgstatic"; "a.exe"; Limits.long_name; "zz.exe"; "--peid"]
           (mk_vm false (Some (["a.exe"] ++ Limits.long_name :: ["zz.exe"])) false None
                  false None true false)
           ["a.exe"] Limits.long_name ["zz.exe"]); reflexivity.
Defined.
